(** * createx: the [mine] command of [createx/__main__.py]

    A shallow embedding of the vanity-address miner: option validation,
    the pattern closures, [conditions_met] and the salt-walk loop, followed
    by the properties of the command. *)

From Stdlib Require Import ZArith NArith List String Ascii Bool Lia.
From Stdlib Require Import Strings.Byte Numbers.DecimalString.
Import ListNotations.

Local Open Scope Z_scope.

(** ** Python values *)

(** [bytes] objects. *)
Definition bytes := list byte.

(** The exceptions that can leave [mine].  [click.BadOptionUsage] is a
    subclass of [click.UsageError]; [ValueError] is what [max] of an empty
    sequence and [to_canonical_address] of a malformed address raise;
    [NameError] is a read of a local that was never assigned. *)
Inductive Exception : Type :=
| UsageError (message : string)
| BadOptionUsage (option_name message : string)
| ValueError
| NameError (name : string).

(** Both click exceptions end the command as a usage error. *)
Definition is_usage_error (e : Exception) : bool :=
  match e with
  | UsageError _ | BadOptionUsage _ _ => true
  | ValueError | NameError _ => false
  end.

Definition message_of (e : Exception) : string :=
  match e with
  | UsageError m | BadOptionUsage _ m => m
  | ValueError | NameError _ => EmptyString
  end.

(** *** A small error monad: [inl] is a raised exception. *)
Definition Result (A : Type) : Type := (Exception + A)%type.

Definition ret {A} (a : A) : Result A := inr a.
Definition raise {A} (e : Exception) : Result A := inl e.
Definition bind {A B} (m : Result A) (k : A -> Result B) : Result B :=
  match m with
  | inl e => inl e
  | inr a => k a
  end.

Notation "x <- m ;; k" := (bind m (fun x => k))
  (at level 61, m at next level, right associativity).

Module Py.

(** *** Sequence indices

    [clamp len i] is the position a slice bound [i] denotes in a sequence
    of length [len]: a negative bound counts from the end and stops at 0;
    a bound past the end is cut by [firstn]/[skipn] themselves. *)
Definition clamp (len : nat) (i : Z) : nat :=
  if i <? 0 then Z.to_nat (Z.max 0 (Z.of_nat len + i)) else Z.to_nat i.

(** [l[:n]] and [l[i:]] on a list. *)
Definition slice_to {A} (n : Z) (l : list A) : list A :=
  firstn (clamp (List.length l) n) l.
Definition slice_from {A} (i : Z) (l : list A) : list A :=
  skipn (clamp (List.length l) i) l.

(** *** [str] *)
Fixpoint take (n : nat) (s : string) : string :=
  match n, s with
  | S n', String c r => String c (take n' r)
  | _, _ => EmptyString
  end.

Fixpoint drop (n : nat) (s : string) : string :=
  match n, s with
  | S n', String _ r => drop n' r
  | _, _ => s
  end.

(** [s[:n]] and [s[i:]] on a string. *)
Definition str_slice_to (n : Z) (s : string) : string :=
  take (clamp (String.length s) n) s.
Definition str_slice_from (i : Z) (s : string) : string :=
  drop (clamp (String.length s) i) s.

(** [len(s)] *)
Definition len (s : string) : Z := Z.of_nat (String.length s).

(** [c.lower()] on the ASCII range; the strings handled here are hex
    text. *)
Definition lower_char (c : ascii) : ascii :=
  let n := N_of_ascii c in
  if ((65 <=? n) && (n <=? 90))%N then ascii_of_N (n + 32) else c.

Fixpoint lower (s : string) : string :=
  match s with
  | EmptyString => EmptyString
  | String c r => String (lower_char c) (lower r)
  end.

(** [s.replace("0x", "")]: every occurrence, scanning left to right. *)
Fixpoint replace_0x (s : string) : string :=
  match s with
  | EmptyString => EmptyString
  | String c r =>
      match r with
      | String d r' =>
          if (Ascii.eqb c "0" && Ascii.eqb d "x")%bool
          then replace_0x r'
          else String c (replace_0x r)
      | EmptyString => String c EmptyString
      end
  end.

(** [c in alphabet] *)
Fixpoint mem (c : ascii) (alphabet : string) : bool :=
  match alphabet with
  | EmptyString => false
  | String d r => Ascii.eqb c d || mem c r
  end.

(** [set(s) <= set(alphabet)] *)
Fixpoint set_le (s alphabet : string) : bool :=
  match s with
  | EmptyString => true
  | String c r => mem c alphabet && set_le r alphabet
  end.

(** Truthiness of an optional [int] and of an optional [str]. *)
Definition truthy_int (o : option Z) : bool :=
  match o with
  | Some n => negb (n =? 0)
  | None => false
  end.

Definition truthy_str (o : option string) : bool :=
  match o with
  | Some s => negb (String.eqb s EmptyString)
  | None => false
  end.

(** [max(bs)] of a [bytes] object: its largest byte as an [int];
    [ValueError] on the empty sequence. *)
Definition max (bs : bytes) : Result N :=
  match bs with
  | [] => raise ValueError
  | b :: r => ret (fold_left N.max (map Byte.to_N r) (Byte.to_N b))
  end.

(** [str(n)] for an [int]. *)
Definition str_of_int (n : Z) : string :=
  NilZero.string_of_int (Z.to_int n).

(** [bs.hex()] *)
Definition hex_digit (n : N) : ascii :=
  if (n <? 10)%N then ascii_of_N (48 + n) else ascii_of_N (87 + n).

Fixpoint hex (bs : bytes) : string :=
  match bs with
  | [] => EmptyString
  | b :: r =>
      let n := Byte.to_N b in
      String (hex_digit (n / 16)) (String (hex_digit (n mod 16)) (hex r))
  end.

End Py.

(** ** [eth_utils.to_canonical_address]

    The library function on a [str]: an optional [0x]/[0X] prefix followed
    by exactly 40 hex digits of either case is decoded to its 20 bytes;
    anything else raises [ValueError]. *)
Definition hex_val (c : ascii) : option N :=
  let n := N_of_ascii c in
  if ((48 <=? n) && (n <=? 57))%N then Some (n - 48)%N
  else if ((97 <=? n) && (n <=? 102))%N then Some (n - 87)%N
  else if ((65 <=? n) && (n <=? 70))%N then Some (n - 55)%N
  else None.

Fixpoint decode_hex (s : string) : option bytes :=
  match s with
  | EmptyString => Some []
  | String h r =>
      match r with
      | EmptyString => None
      | String l r' =>
          match hex_val h, hex_val l, decode_hex r' with
          | Some hv, Some lv, Some bs =>
              match Byte.of_N (16 * hv + lv) with
              | Some b => Some (b :: bs)
              | None => None
              end
          | _, _, _ => None
          end
      end
  end.

Definition remove_0x_prefix (s : string) : string :=
  match s with
  | String "0" (String "x" r) => r
  | String "0" (String "X" r) => r
  | _ => s
  end.

Definition to_canonical_address (address : string) : Result bytes :=
  let digits := remove_0x_prefix address in
  if (String.length digits =? 40)%nat then
    match decode_hex digits with
    | Some bs => ret bs
    | None => raise ValueError
    end
  else raise ValueError.

(** ** The options of [mine] *)

Record Flags : Type := {
  leading_zeros : option Z;
  starts_with : option string;
  trailing_zeros : option Z;
  ends_with : option string;
  case_sensitive : bool;
  max_iterations : Z
}.

(** ** The pattern closures

    The four nested functions of [mine] close over its local variables.
    [leading_zeros], [starts_with], [trailing_zeros], [ends_with] and
    [case_sensitive] are never assigned after the call starts, so a closure
    may as well hold their values.  [pattern_size] is different: it is one
    local of [mine], assigned in the [--starts-with] block and again in the
    [--ends-with] block, and both closures read it when they are called.
    A closure therefore takes the content of that cell as an argument. *)
Definition Cell : Type := option Z.
Definition Closure : Type := Cell -> string -> Result bool.

Definition read_pattern_size (cell : Cell) : Result Z :=
  match cell with
  | Some n => ret n
  | None => raise (NameError "pattern_size")
  end.

Definition has_enough_leading_zeros (leading_zeros : Z) : Closure :=
  fun _ address =>
    canonical <- to_canonical_address address ;;
    m <- Py.max (Py.slice_to leading_zeros canonical) ;;
    ret (m =? 0)%N.

Definition starts_with_pattern (case_sensitive : bool) (starts_with : string)
  : Closure :=
  fun cell address =>
    pattern_size <- read_pattern_size cell ;;
    let start := Py.str_slice_to pattern_size (Py.replace_0x address) in
    if case_sensitive
    then ret (String.eqb start starts_with)
    else ret (String.eqb (Py.lower start) starts_with).

Definition has_enough_trailing_zeros (trailing_zeros : Z) : Closure :=
  fun _ address =>
    canonical <- to_canonical_address address ;;
    m <- Py.max (Py.slice_from (- trailing_zeros) canonical) ;;
    ret (m =? 0)%N.

Definition ends_with_pattern (case_sensitive : bool) (ends_with : string)
  : Closure :=
  fun cell address =>
    pattern_size <- read_pattern_size cell ;;
    let end_ := Py.str_slice_from (- pattern_size) address in
    if case_sensitive
    then ret (String.eqb end_ ends_with)
    else ret (String.eqb (Py.lower end_) ends_with).

(** [all(cond(address) for cond in conditions)]: the generator is consumed
    left to right and [all] stops at the first falsy value. *)
Fixpoint conditions_met (cell : Cell) (conditions : list Closure)
  (address : string) : Result bool :=
  match conditions with
  | [] => ret true
  | cond :: rest =>
      b <- cond cell address ;;
      if b then conditions_met cell rest address else ret false
  end.

(** ** Option validation: the first half of [mine] *)

(** The locals of [mine] that the validation assigns. *)
Record Locals : Type := {
  conditions : list Closure;
  pattern_size : Cell;
  warned : list string
}.

Definition no_locals : Locals :=
  {| conditions := []; pattern_size := None; warned := [] |}.

Definition append (c : Closure) (l : Locals) : Locals :=
  {| conditions := conditions l ++ [c];
     pattern_size := pattern_size l;
     warned := warned l |}.

Definition warn (w : string) (l : Locals) : Locals :=
  {| conditions := conditions l;
     pattern_size := pattern_size l;
     warned := warned l ++ [w] |}.

Definition assign_pattern_size (n : Z) (l : Locals) : Locals :=
  {| conditions := conditions l;
     pattern_size := Some n;
     warned := warned l |}.

Definition hex_alphabet : string := "0123456789AaBbCcDdEeFf".

(** Lines 171-179.  The two [click.UsageError] objects are built and then
    dropped: neither statement has a [raise]. *)
Definition unraised_exclusivity_error (f : Flags) : option Exception :=
  if Py.truthy_int (leading_zeros f) && Py.truthy_str (starts_with f) then
    Some (UsageError
            "Cannot use both `--leading-zeros` and `--starts-with` together.")
  else if Py.truthy_int (trailing_zeros f) && Py.truthy_str (ends_with f) then
    Some (UsageError
            "Cannot use both `--trailing-zeros` and `--ends-with` together.")
  else None.

(** Lines 183-196. *)
Definition check_leading_zeros (f : Flags) (l : Locals) : Result Locals :=
  match leading_zeros f with
  | None => ret l
  | Some n =>
      if n <=? 0 then
        raise (BadOptionUsage "leading_zeros" "Cannot be less than 1")
      else
        let l :=
          if n >? 8
          then warn "`--leading-zeros` greater than 8 will likely not converge." l
          else l in
        ret (append (has_enough_leading_zeros n) l)
  end.

(** Lines 198-218. *)
Definition check_starts_with (f : Flags) (l : Locals) : Result Locals :=
  match starts_with f with
  | None => ret l
  | Some p =>
      if negb (Py.set_le p hex_alphabet) then
        raise (BadOptionUsage "starts_with" "Must be valid hex")
      else
        let l := assign_pattern_size (Py.len p) l in
        let l :=
          if Py.len p >? 8
          then warn "`--starts-with` pattern size greater than 8 will likely not converge." l
          else l in
        ret (append (starts_with_pattern (case_sensitive f) p) l)
  end.

(** Lines 220-233. *)
Definition check_trailing_zeros (f : Flags) (l : Locals) : Result Locals :=
  match trailing_zeros f with
  | None => ret l
  | Some n =>
      if n <=? 0 then
        raise (BadOptionUsage "trailing_zeros" "Cannot be less than 1")
      else
        let l :=
          if n >? 8
          then warn "`--trailing-zeros` greater than 8 will likely not converge." l
          else l in
        ret (append (has_enough_trailing_zeros n) l)
  end.

(** Lines 235-255. *)
Definition check_ends_with (f : Flags) (l : Locals) : Result Locals :=
  match ends_with f with
  | None => ret l
  | Some p =>
      if negb (Py.set_le p hex_alphabet) then
        raise (BadOptionUsage "ends_with" "Must be valid hex")
      else
        let l := assign_pattern_size (Py.len p) l in
        let l :=
          if Py.len p >? 8
          then warn "`--ends-with` pattern size greater than 8 will likely not converge." l
          else l in
        ret (append (ends_with_pattern (case_sensitive f) p) l)
  end.

(** Lines 257-260. *)
Definition check_some_condition (l : Locals) : Result Locals :=
  match conditions l with
  | [] =>
      raise (UsageError
               "Must use one of: --leading-zeros, --trailing-zeros, --starts-with, --ends-with")
  | _ :: _ => ret l
  end.

(** Lines 171-260 in order. *)
Definition build_conditions (f : Flags) : Result Locals :=
  let _ := unraised_exclusivity_error f in
  l <- check_leading_zeros f no_locals ;;
  l <- check_starts_with f l ;;
  l <- check_trailing_zeros f l ;;
  l <- check_ends_with f l ;;
  check_some_condition l.

(** ** The search loop: the second half of [mine] *)

(** How the command ends: the [click.echo] of a match, or an exception. *)
Inductive Outcome : Type :=
| Found (address : string) (iterations : Z) (salt : bytes)
| Raised (e : Exception).

(** The text echoed for a match (line 294). *)
Definition echoed (o : Outcome) : option string :=
  match o with
  | Found address iterations salt =>
      Some ("Found '" ++ address ++ "' after " ++ Py.str_of_int iterations
            ++ " iterations using salt: " ++ Py.hex salt)%string
  | Raised _ => None
  end.

(** The usage error of an exhausted budget (line 287). *)
Definition Exhausted (iterations : Z) : Outcome :=
  Raised (UsageError ("Could not find solution in "
                      ++ Py.str_of_int iterations ++ " iterations.")%string).

(** One entry per call of [compute_address]: the salt passed and the
    address returned. *)
Definition Trace : Type := list (bytes * string).

Section Miner.

(** [createx.compute_address] with every argument but [salt] fixed by the
    invocation.  [createx.main] is outside this file. *)
Variable compute_address : bytes -> string.

(** Lines 274-296.  [fuel] bounds the number of turns of the [while];
    [None] means the fuel ran out before the loop ended. *)
Fixpoint mine_loop (cell : Cell) (conds : list Closure) (max_iter : Z)
  (fuel : nat) (salt : bytes) (iterations : Z) : option (Outcome * Trace) :=
  match fuel with
  | O => None
  | S fuel' =>
      let address := compute_address salt in
      match conditions_met cell conds address with
      | inl e => Some (Raised e, [(salt, address)])
      | inr true => Some (Found address iterations salt, [(salt, address)])
      | inr false =>
          if iterations >=? max_iter then
            Some (Exhausted iterations, [(salt, address)])
          else
            match to_canonical_address address with
            | inl e => Some (Raised e, [(salt, address)])
            | inr canonical =>
                match mine_loop cell conds max_iter fuel'
                        (Py.slice_to 11 canonical) (iterations + 1) with
                | Some (o, tr) => Some (o, (salt, address) :: tr)
                | None => None
                end
            end
      end
  end.

(** [mine]; [seed] is the value of [random.randbytes(11)]. *)
Definition mine (f : Flags) (seed : bytes) (fuel : nat)
  : option (Outcome * Trace) :=
  match build_conditions f with
  | inl e => Some (Raised e, [])
  | inr l =>
      mine_loop (pattern_size l) (conditions l) (max_iterations f)
        fuel seed 0
  end.

End Miner.

(** ** Validation in closed form

    What the checks of [build_conditions] reject, read off the options
    alone; [build_conditions_rejection] below relates it to the code. *)

(** A zero count that is given and not positive. *)
Definition bad_count (o : option Z) : bool :=
  match o with
  | Some n => n <=? 0
  | None => false
  end.

(** A pattern that is given and has a character outside the hex alphabet. *)
Definition bad_pattern (o : option string) : bool :=
  match o with
  | Some p => negb (Py.set_le p hex_alphabet)
  | None => false
  end.

(** None of the four pattern options is given. *)
Definition no_option (f : Flags) : bool :=
  match leading_zeros f, starts_with f, trailing_zeros f, ends_with f with
  | None, None, None, None => true
  | _, _, _, _ => false
  end.

(** The exception of the first check that fails, in the order of the
    source. *)
Definition first_rejection (f : Flags) : option Exception :=
  if bad_count (leading_zeros f) then
    Some (BadOptionUsage "leading_zeros" "Cannot be less than 1")
  else if bad_pattern (starts_with f) then
    Some (BadOptionUsage "starts_with" "Must be valid hex")
  else if bad_count (trailing_zeros f) then
    Some (BadOptionUsage "trailing_zeros" "Cannot be less than 1")
  else if bad_pattern (ends_with f) then
    Some (BadOptionUsage "ends_with" "Must be valid hex")
  else if no_option f then
    Some (UsageError
            "Must use one of: --leading-zeros, --trailing-zeros, --starts-with, --ends-with")
  else None.

(** A closure that returns a boolean on every well-formed address. *)
Definition closure_total (cell : Cell) (c : Closure) : Prop :=
  forall address canonical,
    to_canonical_address address = inr canonical ->
    exists b, c cell address = inr b.

(** The locals keep every closure total once [pattern_size] is bound. *)
Definition locals_ok (l : Locals) : Prop :=
  forall cell,
    (pattern_size l <> None -> cell <> None) ->
    Forall (closure_total cell) (conditions l).

(** The spec's reading of the low [n] bytes of a byte string, as in the low
    20 bytes of a 32-byte hash: its last [n] bytes. *)
Definition low_bytes (n : nat) (bs : bytes) : bytes :=
  skipn (List.length bs - n) bs.

(** ** Sample invocations

    Concrete options, addresses and stand-ins for [compute_address], used
    to run the command. *)

Definition options (lz : option Z) (sw : option string) (tz : option Z)
  (ew : option string) (cs : bool) (k : Z) : Flags :=
  {| leading_zeros := lz; starts_with := sw; trailing_zeros := tz;
     ends_with := ew; case_sensitive := cs; max_iterations := k |}.

(** An address with no zero byte, bytes [01 .. 14]. *)
Definition addr_walk : string := "0x0102030405060708090a0b0c0d0e0f1011121314".

Definition walk_bytes : bytes :=
  [x01; x02; x03; x04; x05; x06; x07; x08; x09; x0a;
   x0b; x0c; x0d; x0e; x0f; x10; x11; x12; x13; x14].

(** An address with a zero first byte and a zero last byte. *)
Definition addr_zero : string := "0x00ab00000000000000000000000000000000cd00".

(** Addresses that differ only in the case of their hex digits. *)
Definition addr_lower : string := "0xab000000000000000000000000000000000000ef".
Definition addr_upper : string := "0xAB000000000000000000000000000000000000EF".

(** A deriver that returns the same address for every salt. *)
Definition always (address : string) : bytes -> string := fun _ => address.

(** A value of [random.randbytes(11)]. *)
Definition seed0 : bytes := repeat x00 11.

(** A deriver that answers a salt starting with a zero byte with
    [addr_walk] and any other salt with [addr_zero]. *)
Definition two_step (salt : bytes) : string :=
  match salt with
  | x00 :: _ => addr_walk
  | _ => addr_zero
  end.

(** The canonical form of [addr_zero]. *)
Definition zero_bytes : bytes := [x00; xab] ++ repeat x00 16 ++ [xcd; x00].

(** ** The locals after a successful validation, in closed form *)

(** The closures appended, in the order of the four blocks. *)
Definition expected_conditions (f : Flags) : list Closure :=
  (match leading_zeros f with
   | Some n => [has_enough_leading_zeros n]
   | None => []
   end) ++
  (match starts_with f with
   | Some p => [starts_with_pattern (case_sensitive f) p]
   | None => []
   end) ++
  (match trailing_zeros f with
   | Some n => [has_enough_trailing_zeros n]
   | None => []
   end) ++
  (match ends_with f with
   | Some q => [ends_with_pattern (case_sensitive f) q]
   | None => []
   end).

(** The last assignment to [pattern_size]. *)
Definition final_pattern_size (f : Flags) : Cell :=
  match ends_with f with
  | Some q => Some (Py.len q)
  | None =>
      match starts_with f with
      | Some p => Some (Py.len p)
      | None => None
      end
  end.

(** The warnings issued, in the order of the four blocks. *)
Definition expected_warnings (f : Flags) : list string :=
  (match leading_zeros f with
   | Some n =>
       if n >? 8
       then ["`--leading-zeros` greater than 8 will likely not converge."%string]
       else []
   | None => []
   end) ++
  (match starts_with f with
   | Some p =>
       if Py.len p >? 8
       then ["`--starts-with` pattern size greater than 8 will likely not converge."%string]
       else []
   | None => []
   end) ++
  (match trailing_zeros f with
   | Some n =>
       if n >? 8
       then ["`--trailing-zeros` greater than 8 will likely not converge."%string]
       else []
   | None => []
   end) ++
  (match ends_with f with
   | Some q =>
       if Py.len q >? 8
       then ["`--ends-with` pattern size greater than 8 will likely not converge."%string]
       else []
   | None => []
   end).

(** ** The shape of a derivation trace

    [salt_walk compute_address salt tr]: the first call is made on [salt],
    every call returns the deriver's address for its salt, and every later
    call is made on the first 11 bytes of the canonical form of the address
    before it. *)
Fixpoint salt_walk (compute_address : bytes -> string) (salt : bytes)
  (tr : Trace) : Prop :=
  match tr with
  | [] => True
  | (s, a) :: rest =>
      s = salt /\ a = compute_address salt /\
      match rest with
      | [] => True
      | _ :: _ =>
          exists canonical,
            to_canonical_address a = inr canonical /\
            List.length (firstn 11 canonical) = 11%nat /\
            salt_walk compute_address (firstn 11 canonical) rest
      end
  end.

(** [ape.utils.misc.ZERO_ADDRESS]. *)
Definition ZERO_ADDRESS : string := "0x0000000000000000000000000000000000000000".

(** An address with two zero bytes at each end. *)
Definition addr_zero2 : string := "0x0000ab0000000000000000000000000000cd0000".

(** ** The other commands and the option callbacks *)

(** The value of the [--salt] option after its callback:
    ["HexBytes | str | None"]. *)
Inductive Salt : Type :=
| SaltBytes (b : bytes)
| SaltStr (s : string)
| SaltNone.

(** [eth_utils.to_bytes(hexstr=...)] on a [str].  The library pads a text
    of odd length with a leading zero digit, drops a [0x]/[0X] prefix and
    unhexlifies the rest ([decode_hex] above decodes the digits); a
    character that is not a hex digit raises. *)
Definition to_bytes_hexstr (hexstr : string) : Result bytes :=
  let hexstr :=
    if Nat.odd (String.length hexstr)
    then ("0x0" ++ remove_0x_prefix hexstr)%string
    else hexstr in
  match decode_hex (remove_0x_prefix hexstr) with
  | Some b => ret b
  | None => raise ValueError
  end.

(** Lines 60-66.  Any exception of [to_bytes] is swallowed and the value
    is returned as it came; [to_bytes(hexstr=None)] raises. *)
Definition convert_salt (value : option string) : Salt :=
  match value with
  | None => SaltNone
  | Some s =>
      match to_bytes_hexstr s with
      | inr b => SaltBytes b
      | inl _ => SaltStr s
      end
  end.

(** [s.split(sep)] for a one-character separator. *)
Fixpoint str_split (sep : ascii) (s : string) : list string :=
  match s with
  | EmptyString => [EmptyString]
  | String c r =>
      if Ascii.eqb c sep then EmptyString :: str_split sep r
      else
        match str_split sep r with
        | h :: t => String c h :: t
        | [] => [String c EmptyString]
        end
  end.

Module Cli.

Section Resolver.

(** [ContractContainer]; such an object is truthy. *)
Context {Contract : Type}.

(** What [get_contract_type] reads of [ape.project]: the local contracts,
    and for a dependency name its installed versions, each with its own
    contracts. *)
Record Dependency : Type := {
  version : string;
  dep_contracts : string -> option Contract
}.

Record Project : Type := {
  contracts : string -> option Contract;
  get_versions : string -> list Dependency
}.

(** A contract, or [click.BadParameter]. *)
Inductive Resolution : Type :=
| Resolved (c : Contract)
| BadParameter (message : string).

(** Lines 35-42: the [for] loop.  [None] is the loop left by [break] or
    run to its end. *)
Fixpoint search_versions (deps : list Dependency) (ver name : string)
  : option Contract :=
  match deps with
  | [] => None
  | dependency :: rest =>
      if String.eqb (version dependency) ver
      then dep_contracts dependency name
      else search_versions rest ver name
  end.

Definition not_a_specifier (value : string) : Resolution :=
  BadParameter ("'" ++ value ++ "' is not a valid dependency specifier.")%string.

Definition not_a_local_type (value : string) : Resolution :=
  BadParameter ("'" ++ value ++ "' is not a type in your local project.")%string.

(** Lines 27-57. *)
Definition get_contract_type (project : Project) (value : string)
  : Resolution :=
  if Py.mem ":" value then
    match str_split ":" value with
    | [dependency; name] =>
        match str_split "@" dependency with
        | [dep_name; ver] =>
            match search_versions (get_versions project dep_name) ver name with
            | Some c => Resolved c
            | None => not_a_specifier value
            end
        | _ => not_a_specifier value
        end
    | _ => not_a_specifier value
    end
  else
    match contracts project value with
    | Some c => Resolved c
    | None => not_a_local_type value
    end.

End Resolver.

Section Commands.

Context {Contract CreationType : Type}.

(** The arguments of [createx.compute_address] as the commands pass
    them. *)
Record ComputeArgs : Type := {
  arg_contract_type : Contract;
  arg_constructor_args : list string;
  arg_create_type : CreationType;
  arg_nonce : option Z;
  arg_salt : Salt;
  arg_sender_address : string;
  arg_sender_protection : bool;
  arg_redeploy_protection : bool
}.

(** [createx.compute_address], and the value its [nonce] parameter takes
    when the caller leaves it out, as [mine] does.  [createx.main] is
    outside this file. *)
Variable compute_address : ComputeArgs -> string.
Variable nonce_default : option Z.

(** Lines 78-107: the text echoed by [address]. *)
Definition address (create_type : CreationType) (nonce : option Z)
  (salt : Salt) (deployer_address : string)
  (sender_protection redeploy_protection : bool)
  (contract_type : Contract) (constructor_args : list string) : string :=
  compute_address
    {| arg_contract_type := contract_type;
       arg_constructor_args := constructor_args;
       arg_create_type := create_type;
       arg_nonce := nonce;
       arg_salt := salt;
       arg_sender_address :=
         if sender_protection then deployer_address else ZERO_ADDRESS;
       arg_sender_protection := sender_protection;
       arg_redeploy_protection := redeploy_protection |}.

(** Lines 276-284: the call made by [mine] for a salt. *)
Definition mine_deriver (create_type : CreationType)
  (deployer_address : string) (sender_protection redeploy_protection : bool)
  (contract_type : Contract) (constructor_args : list string)
  : bytes -> string :=
  fun salt =>
    compute_address
      {| arg_contract_type := contract_type;
         arg_constructor_args := constructor_args;
         arg_create_type := create_type;
         arg_nonce := nonce_default;
         arg_salt := SaltBytes salt;
         arg_sender_address :=
           if sender_protection then deployer_address else ZERO_ADDRESS;
         arg_sender_protection := sender_protection;
         arg_redeploy_protection := redeploy_protection |}.

(** [mine] with its call of [compute_address] spelled out. *)
Definition mine_command (create_type : CreationType) (f : Flags)
  (deployer_address : string) (sender_protection redeploy_protection : bool)
  (contract_type : Contract) (constructor_args : list string)
  (seed : bytes) (fuel : nat) : option (Outcome * Trace) :=
  mine (mine_deriver create_type deployer_address sender_protection
          redeploy_protection contract_type constructor_args)
       f seed fuel.

End Commands.

End Cli.

(** A sample project: one local contract, and a dependency installed in
    two versions of which only the second has the contract [Token]. *)
Definition sample_project : @Cli.Project nat :=
  {| Cli.contracts := fun n => if String.eqb n "Vault" then Some 1%nat else None;
     Cli.get_versions := fun d =>
       if String.eqb d "lib" then
         [ {| Cli.version := "1.0";
              Cli.dep_contracts := fun _ => None |};
           {| Cli.version := "2.0";
              Cli.dep_contracts := fun n =>
                if String.eqb n "Token" then Some 7%nat else None |};
           {| Cli.version := "1.0";
              Cli.dep_contracts := fun n =>
                if String.eqb n "Token" then Some 9%nat else None |} ]
       else [] |}.

(** A stand-in for [createx.compute_address] that answers a byte salt
    starting with a zero byte with [addr_walk] and anything else with
    [addr_zero]. *)
Definition sample_compute (args : @Cli.ComputeArgs nat nat) : string :=
  match Cli.arg_salt args with
  | SaltBytes (x00 :: _) => addr_walk
  | _ => addr_zero
  end.

(** ** Proof automation *)

(** Case analysis on the first conditional of the goal. *)
Ltac case_if :=
  match goal with
  | |- context [if ?b then _ else _] => destruct b eqn:?
  end.

(** Case analysis on the first conditional of a hypothesis. *)
Ltac case_if_in H :=
  match type of H with
  | context [if ?b then _ else _] => destruct b eqn:?
  end.

(** * Properties *)

(** ** Bytes and slices *)

Lemma to_N_zero (b : byte) : Byte.to_N b = 0%N <-> b = x00.
Proof.
  split; intros H.
  - pose proof (Byte.of_to_N b) as E. rewrite H in E. now inversion E.
  - now subst.
Qed.

Lemma fold_max_zero (l : list N) (a : N) :
  fold_left N.max l a = 0%N <-> a = 0%N /\ Forall (fun x => x = 0%N) l.
Proof.
  revert a; induction l as [|x l IH]; intros a; simpl.
  - split; [intros ->; split; constructor | now intros [-> _]].
  - rewrite IH. split.
    + intros [Hm Hl]. repeat split; try constructor; auto; lia.
    + intros [-> Hl]. inversion Hl; subst. split; auto.
Qed.

(** [max(bs) == 0] holds exactly when every byte of a non-empty [bs] is 0. *)
Lemma max_is_zero (bs : bytes) (m : N) :
  Py.max bs = inr m -> ((m =? 0)%N = true <-> Forall (eq x00) bs).
Proof.
  destruct bs as [|b r]; simpl; [discriminate|].
  intros E; inversion E; subst; clear E.
  rewrite N.eqb_eq, fold_max_zero, to_N_zero, Forall_map. split.
  - intros [-> Hr]. constructor; [reflexivity|].
    eapply Forall_impl; [|exact Hr]. intros c Hc. symmetry. now apply to_N_zero.
  - intros H; inversion H; subst. split; [reflexivity|].
    eapply Forall_impl; [|eassumption]. intros c <-. reflexivity.
Qed.

Lemma max_nonempty (bs : bytes) :
  bs <> [] -> exists m, Py.max bs = inr m.
Proof. destruct bs; [congruence | intros _; eexists; reflexivity]. Qed.

Lemma Forall_firstn_index {A} (P : A -> Prop) (k : nat) (l : list A) :
  Forall P (firstn k l) <->
  (forall i x, (i < k)%nat -> nth_error l i = Some x -> P x).
Proof.
  rewrite Forall_forall. split.
  - intros H i x Hi Hx. apply H. apply nth_error_In with (n := i).
    rewrite nth_error_firstn.
    destruct (Nat.ltb_spec i k); [assumption | lia].
  - intros H x Hin. apply In_nth_error in Hin as [i Hi].
    rewrite nth_error_firstn in Hi.
    destruct (Nat.ltb_spec i k); [eauto | discriminate].
Qed.

Lemma Forall_skipn_index {A} (P : A -> Prop) (k : nat) (l : list A) :
  Forall P (skipn k l) <->
  (forall i x, (k <= i)%nat -> nth_error l i = Some x -> P x).
Proof.
  rewrite Forall_forall. split.
  - intros H i x Hi Hx. apply H. apply nth_error_In with (n := (i - k)%nat).
    rewrite nth_error_skipn. now replace (k + (i - k))%nat with i by lia.
  - intros H x Hin. apply In_nth_error in Hin as [i Hi].
    rewrite nth_error_skipn in Hi. eapply H; [|exact Hi]. lia.
Qed.

(** ** Canonical addresses have 20 bytes *)

Lemma decode_hex_length (bs : bytes) :
  forall s, decode_hex s = Some bs -> String.length s = (2 * List.length bs)%nat.
Proof.
  induction bs as [|b bs IH]; intros s H.
  - destruct s as [|h [|l r]]; simpl in H; try discriminate; [reflexivity|].
    destruct (hex_val h), (hex_val l), (decode_hex r); try discriminate.
    destruct (Byte.of_N _); discriminate.
  - destruct s as [|h [|l r]]; simpl in H; try discriminate.
    destruct (hex_val h), (hex_val l), (decode_hex r) as [bs'|] eqn:Er;
      try discriminate.
    destruct (Byte.of_N _); [|discriminate].
    inversion H; subst. simpl. rewrite (IH r Er). lia.
Qed.

Lemma canonical_length (address : string) (canonical : bytes) :
  to_canonical_address address = inr canonical -> List.length canonical = 20%nat.
Proof.
  unfold to_canonical_address.
  destruct (Nat.eqb_spec (String.length (remove_0x_prefix address)) 40) as [E|];
    [|discriminate].
  destruct (decode_hex _) as [bs|] eqn:D; [|discriminate].
  intros H; inversion H; subst. apply decode_hex_length in D. lia.
Qed.

(** The slices taken by the two zero-count closures, for a count in range. *)
Lemma slice_to_firstn {A} (n : Z) (l : list A) :
  0 <= n -> Py.slice_to n l = firstn (Z.to_nat n) l.
Proof.
  intros H. unfold Py.slice_to, Py.clamp.
  destruct (Z.ltb_spec n 0); [lia | reflexivity].
Qed.

Lemma slice_from_last {A} (n : Z) (l : list A) :
  1 <= n <= Z.of_nat (List.length l) ->
  Py.slice_from (- n) l = skipn (List.length l - Z.to_nat n) l.
Proof.
  intros H. unfold Py.slice_from, Py.clamp.
  destruct (Z.ltb_spec (- n) 0); [|lia]. f_equal. lia.
Qed.

(** ** Zero-byte conditions *)

(** C6.  For a count [n] with [1 <= n <= 20] and an address whose canonical
    form is the 20 bytes [canonical], both zero-count closures return
    without raising; [has_enough_leading_zeros n] is true exactly when the
    bytes at positions [0 .. n-1] are all 0, and
    [has_enough_trailing_zeros n] exactly when the bytes at positions
    [20-n .. 19] are all 0. *)
Theorem zero_count_conditions_spec
  (n : Z) (cell : Cell) (address : string) (canonical : bytes) :
  1 <= n <= 20 ->
  to_canonical_address address = inr canonical ->
  exists lead trail : bool,
    has_enough_leading_zeros n cell address = inr lead /\
    has_enough_trailing_zeros n cell address = inr trail /\
    (lead = true <->
       forall i, (i < Z.to_nat n)%nat -> nth_error canonical i = Some x00) /\
    (trail = true <->
       forall i, (20 - Z.to_nat n <= i < 20)%nat ->
                 nth_error canonical i = Some x00).
Proof.
  intros Hn Hc. pose proof (canonical_length _ _ Hc) as Hlen.
  unfold has_enough_leading_zeros, has_enough_trailing_zeros.
  rewrite Hc. cbn [bind].
  rewrite slice_to_firstn by lia. rewrite slice_from_last by lia.
  rewrite Hlen.
  assert (Hne1 : firstn (Z.to_nat n) canonical <> []).
  { intros E. apply (f_equal (@List.length byte)) in E.
    rewrite length_firstn in E. cbn [List.length] in E. lia. }
  assert (Hne2 : skipn (20 - Z.to_nat n) canonical <> []).
  { intros E. apply (f_equal (@List.length byte)) in E.
    rewrite length_skipn in E. cbn [List.length] in E. lia. }
  destruct (max_nonempty _ Hne1) as [m1 E1].
  destruct (max_nonempty _ Hne2) as [m2 E2].
  rewrite E1, E2. cbn [bind ret].
  exists (m1 =? 0)%N, (m2 =? 0)%N. repeat split; try reflexivity.
  - rewrite (max_is_zero _ _ E1), Forall_firstn_index. intros H i Hi.
    destruct (nth_error canonical i) as [x|] eqn:Ex.
    + f_equal. symmetry. eapply H; eauto.
    + apply nth_error_None in Ex. lia.
  - rewrite (max_is_zero _ _ E1), Forall_firstn_index. intros H i x Hi Hx.
    specialize (H i Hi). congruence.
  - rewrite (max_is_zero _ _ E2), Forall_skipn_index. intros H i Hi.
    destruct (nth_error canonical i) as [x|] eqn:Ex.
    + f_equal. symmetry. eapply H; [|eauto]. lia.
    + apply nth_error_None in Ex. lia.
  - rewrite (max_is_zero _ _ E2), Forall_skipn_index. intros H i x Hi Hx.
    assert (i < 20)%nat.
    { rewrite <- Hlen. apply nth_error_Some. congruence. }
    specialize (H i ltac:(lia)). congruence.
Qed.

(** ** Conjunction of conditions *)

(** The value of [all] over two lists run one after the other. *)
Lemma conditions_met_app (cell : Cell) (c1 c2 : list Closure) (address : string) :
  conditions_met cell (c1 ++ c2) address =
  (b <- conditions_met cell c1 address ;;
   if b then conditions_met cell c2 address else ret false).
Proof.
  induction c1 as [|c c1 IH]; simpl; [reflexivity|].
  destruct (c cell address) as [e|[|]]; simpl; auto.
Qed.

Lemma conditions_met_true (cell : Cell) (cs : list Closure) (address : string) :
  conditions_met cell cs address = inr true <->
  (forall c, In c cs -> c cell address = inr true).
Proof.
  induction cs as [|c cs IH]; simpl.
  - split; [intros _ c [] | reflexivity].
  - destruct (c cell address) as [e|[|]] eqn:E; simpl.
    + split; [discriminate|]. intros H. rewrite <- E. apply H. now left.
    + rewrite IH. split.
      * intros H c' [<-|Hin]; auto.
      * intros H c' Hin. apply H. now right.
    + split; [discriminate|]. intros H.
      specialize (H c (or_introl eq_refl)). congruence.
Qed.

(** C7.  [conditions_met] over the conditions of [C1] followed by those of
    [C2] is true exactly when it is true over [C1] and over [C2]; and
    [conditions_met] over any list is true exactly when every condition
    of the list is. *)
Theorem conditions_met_conjunction
  (cell : Cell) (C1 C2 : list Closure) (address : string) :
  (conditions_met cell (C1 ++ C2) address = inr true <->
   conditions_met cell C1 address = inr true /\
   conditions_met cell C2 address = inr true) /\
  (conditions_met cell (C1 ++ C2) address = inr true <->
   forall c, In c C1 \/ In c C2 -> c cell address = inr true).
Proof.
  split.
  - rewrite conditions_met_app.
    destruct (conditions_met cell C1 address) as [e|[|]]; cbv [bind ret];
      intuition congruence.
  - rewrite conditions_met_true. split.
    + intros H c Hc. apply H, in_app_iff, Hc.
    + intros H c Hc. apply H, in_app_iff, Hc.
Qed.

(** ** Option validation *)

(** [build_conditions] raises exactly the first rejection, and succeeds
    when there is none. *)
Lemma build_conditions_rejection (f : Flags) :
  match first_rejection f with
  | Some e => build_conditions f = inl e
  | None => exists l, build_conditions f = inr l
  end.
Proof.
  destruct f as [lz sw tz ew cs k].
  unfold first_rejection, build_conditions, no_option,
    check_leading_zeros, check_starts_with, check_trailing_zeros,
    check_ends_with, bad_count, bad_pattern.
  cbn [leading_zeros starts_with trailing_zeros ends_with case_sensitive].
  destruct lz as [n|]; [destruct (n <=? 0)|];
    (destruct sw as [p|]; [destruct (Py.set_le p hex_alphabet)|]);
    (destruct tz as [m|]; [destruct (m <=? 0)|]);
    (destruct ew as [q|]; [destruct (Py.set_le q hex_alphabet)|]);
    cbn [negb bind ret raise];
    repeat case_if; first [reflexivity | eexists; reflexivity].
Qed.

Lemma build_conditions_raises (f : Flags) (e : Exception) :
  build_conditions f = inl e <-> first_rejection f = Some e.
Proof.
  pose proof (build_conditions_rejection f) as H.
  destruct (first_rejection f) as [e'|]; cbn iota in H.
  - rewrite H. split; intros E; inversion E; reflexivity.
  - destruct H as [l ->]. split; discriminate.
Qed.

(** A rejected invocation ends before any address is derived. *)
Lemma mine_rejected (compute_address : bytes -> string)
  (f : Flags) (seed : bytes) (fuel : nat) (e : Exception) :
  first_rejection f = Some e ->
  mine compute_address f seed fuel = Some (Raised e, []).
Proof.
  intros H. apply build_conditions_raises in H. unfold mine. now rewrite H.
Qed.

(** C5, as the code has it.  An empty pattern is not rejected.  The check
    of [--starts-with] and the check of [--ends-with] raise exactly when
    the pattern has a character outside the hex alphabet; on the empty
    pattern both succeed, bind [pattern_size] to 0 and append their
    closure.  With an empty [--starts-with] as the only option, the first
    candidate address is reported as found. *)
Theorem empty_pattern_accepted
  (compute_address : bytes -> string)
  (lz tz : option Z) (sw ew : option string) (cs : bool) (k : Z)
  (p : string) (l : Locals) (seed : bytes) (fuel : nat) :
  let with_start q := {| leading_zeros := lz; starts_with := Some q;
                         trailing_zeros := tz; ends_with := ew;
                         case_sensitive := cs; max_iterations := k |} in
  let with_end q := {| leading_zeros := lz; starts_with := sw;
                       trailing_zeros := tz; ends_with := Some q;
                       case_sensitive := cs; max_iterations := k |} in
  let only_start q := {| leading_zeros := None; starts_with := Some q;
                         trailing_zeros := None; ends_with := None;
                         case_sensitive := cs; max_iterations := k |} in
  ((exists e, check_starts_with (with_start p) l = inl e) <->
   Py.set_le p hex_alphabet = false) /\
  ((exists e, check_ends_with (with_end p) l = inl e) <->
   Py.set_le p hex_alphabet = false) /\
  check_starts_with (with_start EmptyString) l =
    inr (append (starts_with_pattern cs EmptyString) (assign_pattern_size 0 l)) /\
  check_ends_with (with_end EmptyString) l =
    inr (append (ends_with_pattern cs EmptyString) (assign_pattern_size 0 l)) /\
  mine compute_address (only_start EmptyString) seed (S fuel) =
    Some (Found (compute_address seed) 0 seed, [(seed, compute_address seed)]).
Proof.
  cbv zeta. repeat split.
  - unfold check_starts_with; cbn [starts_with].
    destruct (Py.set_le p hex_alphabet); cbn [negb]; [|reflexivity].
    intros [e H]. repeat case_if; discriminate.
  - unfold check_starts_with; cbn [starts_with]. intros ->.
    cbn [negb]. eexists; reflexivity.
  - unfold check_ends_with; cbn [ends_with].
    destruct (Py.set_le p hex_alphabet); cbn [negb]; [|reflexivity].
    intros [e H]. repeat case_if; discriminate.
  - unfold check_ends_with; cbn [ends_with]. intros ->.
    cbn [negb]. eexists; reflexivity.
  - unfold mine. cbn. destruct cs; reflexivity.
Qed.

(** C8, as the code has it.  When [--starts-with] or [--ends-with] has a
    character outside the hex alphabet, [mine] ends in a click usage error
    before any address is derived.  Its message is ["Must be valid hex"],
    unless a zero count that is checked earlier is not positive
    ([--leading-zeros] before either pattern, [--trailing-zeros] before
    [--ends-with] when [--starts-with] is fine): then it is
    ["Cannot be less than 1"]. *)
Theorem non_hex_pattern_rejected
  (compute_address : bytes -> string) (f : Flags) (p : string)
  (seed : bytes) (fuel : nat) :
  starts_with f = Some p \/ ends_with f = Some p ->
  Py.set_le p hex_alphabet = false ->
  exists e,
    mine compute_address f seed fuel = Some (Raised e, []) /\
    is_usage_error e = true /\
    message_of e =
      (if bad_count (leading_zeros f) then "Cannot be less than 1"
       else if bad_pattern (starts_with f) then "Must be valid hex"
       else if bad_count (trailing_zeros f) then "Cannot be less than 1"
       else "Must be valid hex")%string.
Proof.
  intros Hp Hhex.
  assert (Hbad : bad_pattern (starts_with f) = true \/
                 bad_pattern (ends_with f) = true).
  { destruct Hp as [E|E]; [left|right]; rewrite E; simpl; now rewrite Hhex. }
  assert (exists e, first_rejection f = Some e /\ is_usage_error e = true /\
            message_of e =
              (if bad_count (leading_zeros f) then "Cannot be less than 1"
               else if bad_pattern (starts_with f) then "Must be valid hex"
               else if bad_count (trailing_zeros f) then "Cannot be less than 1"
               else "Must be valid hex")%string) as (e & He & Hu & Hm).
  { unfold first_rejection.
    destruct (bad_count (leading_zeros f)); [eexists; repeat split|].
    destruct (bad_pattern (starts_with f)); [eexists; repeat split|].
    destruct (bad_count (trailing_zeros f)); [eexists; repeat split|].
    destruct Hbad as [? | ->]; [discriminate|]. eexists; repeat split. }
  exists e. split; [|split]; auto. now apply mine_rejected.
Qed.

(** C9, as the code has it.  When [--leading-zeros] or [--trailing-zeros]
    is given a count [n <= 0], [mine] ends in a click usage error before
    any address is derived.  For [--leading-zeros] it is always the error
    of that option, with message ["Cannot be less than 1"]; for
    [--trailing-zeros] the message is the same unless [--starts-with],
    which is checked earlier, is not hex: then it is
    ["Must be valid hex"]. *)
Theorem non_positive_count_rejected
  (compute_address : bytes -> string) (f : Flags) (n : Z)
  (seed : bytes) (fuel : nat) :
  leading_zeros f = Some n \/ trailing_zeros f = Some n ->
  n <= 0 ->
  exists e,
    mine compute_address f seed fuel = Some (Raised e, []) /\
    is_usage_error e = true /\
    message_of e =
      (if bad_count (leading_zeros f) then "Cannot be less than 1"
       else if bad_pattern (starts_with f) then "Must be valid hex"
       else "Cannot be less than 1")%string /\
    (bad_count (leading_zeros f) = true ->
     e = BadOptionUsage "leading_zeros" "Cannot be less than 1").
Proof.
  intros Hn Hle.
  assert (Hbad : bad_count (leading_zeros f) = true \/
                 bad_count (trailing_zeros f) = true).
  { destruct Hn as [E|E]; [left|right]; rewrite E; simpl; lia. }
  assert (exists e, first_rejection f = Some e /\ is_usage_error e = true /\
            message_of e =
              (if bad_count (leading_zeros f) then "Cannot be less than 1"
               else if bad_pattern (starts_with f) then "Must be valid hex"
               else "Cannot be less than 1")%string /\
            (bad_count (leading_zeros f) = true ->
             e = BadOptionUsage "leading_zeros" "Cannot be less than 1"))
    as (e & He & Hu & Hm & Hl).
  { unfold first_rejection.
    destruct (bad_count (leading_zeros f)); [eexists; repeat split|].
    destruct (bad_pattern (starts_with f));
      [eexists; repeat split; discriminate|].
    destruct Hbad as [? | ->]; [discriminate|].
    eexists; repeat split; discriminate. }
  exists e. repeat split; auto. now apply mine_rejected.
Qed.

(** ** The closures built by the validation never raise on an address *)

Lemma has_enough_leading_zeros_total (n : Z) (cell : Cell) :
  1 <= n -> closure_total cell (has_enough_leading_zeros n).
Proof.
  intros Hn address canonical Hc. unfold has_enough_leading_zeros.
  rewrite Hc; cbn [bind]. apply canonical_length in Hc.
  destruct (max_nonempty (Py.slice_to n canonical)) as [m ->].
  - rewrite slice_to_firstn by lia. intros E.
    apply (f_equal (@List.length byte)) in E.
    rewrite length_firstn in E. cbn [List.length] in E. lia.
  - eexists; reflexivity.
Qed.

Lemma has_enough_trailing_zeros_total (n : Z) (cell : Cell) :
  1 <= n -> closure_total cell (has_enough_trailing_zeros n).
Proof.
  intros Hn address canonical Hc. unfold has_enough_trailing_zeros.
  rewrite Hc; cbn [bind]. apply canonical_length in Hc.
  destruct (max_nonempty (Py.slice_from (- n) canonical)) as [m ->].
  - unfold Py.slice_from, Py.clamp.
    destruct (Z.ltb_spec (- n) 0); [|lia]. intros E.
    apply (f_equal (@List.length byte)) in E.
    rewrite length_skipn in E. cbn [List.length] in E. lia.
  - eexists; reflexivity.
Qed.

Lemma starts_with_pattern_total (cs : bool) (p : string) (cell : Cell) :
  cell <> None -> closure_total cell (starts_with_pattern cs p).
Proof.
  intros Hcell address canonical _. unfold starts_with_pattern.
  destruct cell as [n|]; [|congruence]. cbn [read_pattern_size bind ret].
  destruct cs; eexists; reflexivity.
Qed.

Lemma ends_with_pattern_total (cs : bool) (p : string) (cell : Cell) :
  cell <> None -> closure_total cell (ends_with_pattern cs p).
Proof.
  intros Hcell address canonical _. unfold ends_with_pattern.
  destruct cell as [n|]; [|congruence]. cbn [read_pattern_size bind ret].
  destruct cs; eexists; reflexivity.
Qed.

Lemma locals_ok_warn (w : string) (l : Locals) :
  locals_ok l -> locals_ok (warn w l).
Proof. intros H cell Hc. apply H, Hc. Qed.

Lemma locals_ok_append (c : Closure) (l : Locals) :
  locals_ok l ->
  (forall cell, (pattern_size l <> None -> cell <> None) ->
                closure_total cell c) ->
  locals_ok (append c l).
Proof.
  intros H Hc cell Hcell. cbn [append conditions].
  apply Forall_app. split; [apply H, Hcell|].
  constructor; [apply Hc, Hcell | constructor].
Qed.

Lemma locals_ok_assign (n : Z) (l : Locals) :
  locals_ok l -> locals_ok (assign_pattern_size n l).
Proof.
  intros H cell Hcell. cbn in *. apply H. intros _. apply Hcell. discriminate.
Qed.

Lemma check_leading_zeros_ok (f : Flags) (l l' : Locals) :
  locals_ok l -> check_leading_zeros f l = inr l' ->
  locals_ok l' /\ pattern_size l' = pattern_size l.
Proof.
  unfold check_leading_zeros. intros Hl.
  destruct (leading_zeros f) as [n|]; [|intros E; inversion E; now subst].
  destruct (Z.leb_spec n 0); [discriminate|].
  intros E; inversion E; subst; clear E. split.
  - apply locals_ok_append.
    + destruct (n >? 8); [apply locals_ok_warn|]; assumption.
    + intros cell _. apply has_enough_leading_zeros_total. lia.
  - destruct (n >? 8); reflexivity.
Qed.

Lemma check_trailing_zeros_ok (f : Flags) (l l' : Locals) :
  locals_ok l -> check_trailing_zeros f l = inr l' ->
  locals_ok l' /\ pattern_size l' = pattern_size l.
Proof.
  unfold check_trailing_zeros. intros Hl.
  destruct (trailing_zeros f) as [n|]; [|intros E; inversion E; now subst].
  destruct (Z.leb_spec n 0); [discriminate|].
  intros E; inversion E; subst; clear E. split.
  - apply locals_ok_append.
    + destruct (n >? 8); [apply locals_ok_warn|]; assumption.
    + intros cell _. apply has_enough_trailing_zeros_total. lia.
  - destruct (n >? 8); reflexivity.
Qed.

Lemma check_starts_with_ok (f : Flags) (l l' : Locals) :
  locals_ok l -> check_starts_with f l = inr l' -> locals_ok l'.
Proof.
  unfold check_starts_with. intros Hl.
  destruct (starts_with f) as [p|]; [|intros E; inversion E; now subst].
  destruct (Py.set_le p hex_alphabet); cbn [negb]; [|discriminate].
  intros E; inversion E; subst; clear E.
  apply locals_ok_append.
  - destruct (Py.len p >? 8); [apply locals_ok_warn|];
      now apply locals_ok_assign.
  - intros cell Hcell. apply starts_with_pattern_total, Hcell.
    destruct (Py.len p >? 8); discriminate.
Qed.

Lemma check_ends_with_ok (f : Flags) (l l' : Locals) :
  locals_ok l -> check_ends_with f l = inr l' -> locals_ok l'.
Proof.
  unfold check_ends_with. intros Hl.
  destruct (ends_with f) as [p|]; [|intros E; inversion E; now subst].
  destruct (Py.set_le p hex_alphabet); cbn [negb]; [|discriminate].
  intros E; inversion E; subst; clear E.
  apply locals_ok_append.
  - destruct (Py.len p >? 8); [apply locals_ok_warn|];
      now apply locals_ok_assign.
  - intros cell Hcell. apply ends_with_pattern_total, Hcell.
    destruct (Py.len p >? 8); discriminate.
Qed.

Lemma bind_inr {A B} (m : Result A) (k : A -> Result B) (b : B) :
  bind m k = inr b -> exists a, m = inr a /\ k a = inr b.
Proof. destruct m as [e|a]; [discriminate | eauto]. Qed.

Lemma build_conditions_total (f : Flags) (l : Locals) :
  build_conditions f = inr l ->
  Forall (closure_total (pattern_size l)) (conditions l).
Proof.
  unfold build_conditions. cbv zeta. intros H.
  apply bind_inr in H as (l1 & H1 & H).
  apply bind_inr in H as (l2 & H2 & H).
  apply bind_inr in H as (l3 & H3 & H).
  apply bind_inr in H as (l4 & H4 & H).
  assert (locals_ok no_locals) as H0 by (intros cell _; constructor).
  apply (check_leading_zeros_ok _ _ _ H0) in H1 as [H1 _].
  apply (check_starts_with_ok _ _ _ H1) in H2.
  apply (check_trailing_zeros_ok _ _ _ H2) in H3 as [H3 _].
  apply (check_ends_with_ok _ _ _ H3) in H4.
  unfold check_some_condition in H.
  destruct (conditions l4) eqn:E; [discriminate|].
  inversion H; subst. apply H4. auto.
Qed.

Lemma conditions_met_total (cell : Cell) (cs : list Closure)
  (address : string) (canonical : bytes) :
  Forall (closure_total cell) cs ->
  to_canonical_address address = inr canonical ->
  exists b, conditions_met cell cs address = inr b.
Proof.
  intros Hcs Hc. induction Hcs as [|c cs Hc1 _ IH]; simpl.
  - eexists; reflexivity.
  - destruct (Hc1 _ _ Hc) as [[|] ->]; cbn [bind]; [exact IH|].
    eexists; reflexivity.
Qed.

(** ** The search loop *)

Section Loop.

Variable compute_address : bytes -> string.
Variable cell : Cell.
Variable conds : list Closure.
Variable k : Z.

(** One turn that rejects its candidate with budget left. *)
Lemma mine_loop_rejected (fuel : nat) (salt : bytes) (iterations : Z)
  (canonical : bytes) :
  conditions_met cell conds (compute_address salt) = inr false ->
  iterations < k ->
  to_canonical_address (compute_address salt) = inr canonical ->
  mine_loop compute_address cell conds k (S fuel) salt iterations =
  match mine_loop compute_address cell conds k fuel (firstn 11 canonical) (iterations + 1) with
  | Some (o, tr) => Some (o, (salt, compute_address salt) :: tr)
  | None => None
  end.
Proof.
  intros Hrej Hlt Hc. cbn [mine_loop].
  rewrite Hrej, Hc.
  destruct (Z.geb_spec iterations k); [lia|].
  now rewrite slice_to_firstn by lia.
Qed.

(** A run that ends in [Found]: every earlier candidate was rejected and
    counted once. *)
Lemma mine_loop_found (fuel : nat) :
  forall salt iterations address n s tr,
    mine_loop compute_address cell conds k fuel salt iterations = Some (Found address n s, tr) ->
    exists rejected : Trace,
      tr = rejected ++ [(s, address)] /\
      n = iterations + Z.of_nat (List.length rejected) /\
      Forall (fun sa => conditions_met cell conds (snd sa) = inr false)
             rejected /\
      conditions_met cell conds address = inr true /\
      address = compute_address s.
Proof.
  induction fuel as [|fuel IH]; intros salt it address n s tr H;
    [discriminate|].
  cbn [mine_loop] in H.
  destruct (conditions_met cell conds (compute_address salt))
    as [e|[|]] eqn:Em.
  - discriminate.
  - inversion H; subst. exists []. cbn. repeat split; auto. lia.
  - destruct (it >=? k); [discriminate|].
    destruct (to_canonical_address (compute_address salt)) as [e|c];
      [discriminate|].
    destruct (mine_loop _ _ _ _ fuel _ _) as [[o tr']|] eqn:Er;
      [|discriminate].
    inversion H; subst.
    destruct (IH _ _ _ _ _ _ Er) as (rej & -> & -> & Hrej & Hm & Ha).
    exists ((salt, compute_address salt) :: rej). cbn [List.length app].
    repeat split; auto. lia.
Qed.

Hypothesis conds_total : Forall (closure_total cell) conds.
Hypothesis addresses_valid :
  forall salt, exists canonical,
    to_canonical_address (compute_address salt) = inr canonical.

(** With more fuel than budget left, the loop ends in [Found] or in the
    exhaustion error, after at most [k - iterations + 1] derivations. *)
Lemma mine_loop_halts (fuel : nat) :
  forall salt iterations,
    iterations <= k ->
    (Z.to_nat (k - iterations) < fuel)%nat ->
    exists o tr,
      mine_loop compute_address cell conds k fuel salt iterations = Some (o, tr) /\
      1 <= Z.of_nat (List.length tr) <= k - iterations + 1 /\
      ((exists address n s, o = Found address n s /\ iterations <= n <= k)
       \/ o = Exhausted k).
Proof.
  induction fuel as [|fuel IH]; intros salt it Hle Hfuel; [lia|].
  cbn [mine_loop].
  destruct (addresses_valid salt) as [c Hc].
  destruct (conditions_met_total _ _ _ _ conds_total Hc) as [[|] ->].
  - do 2 eexists. split; [reflexivity|]. cbn [List.length].
    split; [lia|]. left. do 3 eexists. split; [reflexivity | lia].
  - destruct (Z.geb_spec it k).
    + do 2 eexists. split; [reflexivity|]. cbn [List.length].
      split; [lia|]. right. f_equal. lia.
    + rewrite Hc.
      destruct (IH (Py.slice_to 11 c) (it + 1)) as (o & tr & -> & Hl & Ho);
        [lia | lia |].
      do 2 eexists. split; [reflexivity|]. cbn [List.length].
      split; [lia|].
      destruct Ho as [(a & n & s & -> & Hn) | ->]; [left|now right].
      do 3 eexists. split; [reflexivity | lia].
Qed.

End Loop.

(** ** The [mine] command *)

(** C4.  With a budget [max_iterations = k >= 0], options that pass the
    validation and a deriver that returns well-formed addresses, [mine]
    ends (any fuel above [k] is enough) in [Found] or in the exhaustion
    usage error, after at least one and at most [k + 1] calls of
    [compute_address]. *)
Theorem mining_terminates
  (compute_address : bytes -> string) (f : Flags) (l : Locals)
  (seed : bytes) (fuel : nat) :
  build_conditions f = inr l ->
  0 <= max_iterations f ->
  (forall salt, exists canonical,
      to_canonical_address (compute_address salt) = inr canonical) ->
  (Z.to_nat (max_iterations f) < fuel)%nat ->
  exists o tr,
    mine compute_address f seed fuel = Some (o, tr) /\
    1 <= Z.of_nat (List.length tr) <= max_iterations f + 1 /\
    ((exists address n s,
         o = Found address n s /\ 0 <= n <= max_iterations f)
     \/ o = Exhausted (max_iterations f)).
Proof.
  intros Hb Hk Hvalid Hfuel. unfold mine. rewrite Hb.
  destruct (mine_loop_halts compute_address (pattern_size l) (conditions l)
              (max_iterations f) (build_conditions_total _ _ Hb) Hvalid
              fuel seed 0) as (o & tr & E & Hlen & Ho).
  - lia.
  - now rewrite Z.sub_0_r.
  - exists o, tr. rewrite Z.sub_0_r in Hlen. auto.
Qed.

Lemma mining_terminates_witness :
  let f := options (Some 1) None None None false 3 in
  (exists l, build_conditions f = inr l) /\
  0 <= max_iterations f /\
  (forall salt, exists canonical,
      to_canonical_address (two_step salt) = inr canonical) /\
  (Z.to_nat (max_iterations f) < 4)%nat /\
  exists o tr,
    mine two_step f seed0 4 = Some (o, tr) /\
    1 <= Z.of_nat (List.length tr) <= max_iterations f + 1 /\
    ((exists address n s,
         o = Found address n s /\ 0 <= n <= max_iterations f)
     \/ o = Exhausted (max_iterations f)).
Proof.
  cbv zeta.
  assert (Hv : forall salt, exists canonical,
             to_canonical_address (two_step salt) = inr canonical).
  { intros [|[] salt]; eexists; vm_compute; reflexivity. }
  split; [eexists; reflexivity|].
  split; [cbn; lia|].
  split; [exact Hv|].
  split; [cbn; lia|].
  eapply (mining_terminates two_step (options (Some 1) None None None false 3)).
  - reflexivity.
  - cbn; lia.
  - exact Hv.
  - cbn; lia.
Defined.

(** C10.  When [mine] reports [Found address n salt], the derivation
    calls made are some rejected candidates followed by the match, and
    [n] is the number of rejected candidates: one fewer than the number
    of calls, and 0 when the first candidate matches. *)
Theorem found_counts_rejections
  (compute_address : bytes -> string) (f : Flags) (seed : bytes)
  (fuel : nat) (address : string) (n : Z) (salt : bytes) (tr : Trace) :
  mine compute_address f seed fuel = Some (Found address n salt, tr) ->
  exists (l : Locals) (rejected : Trace),
    build_conditions f = inr l /\
    tr = rejected ++ [(salt, address)] /\
    Forall (fun sa =>
              conditions_met (pattern_size l) (conditions l) (snd sa)
              = inr false) rejected /\
    conditions_met (pattern_size l) (conditions l) address = inr true /\
    address = compute_address salt /\
    n = Z.of_nat (List.length rejected) /\
    Z.of_nat (List.length tr) = n + 1 /\
    (rejected = [] -> n = 0).
Proof.
  unfold mine. destruct (build_conditions f) as [e|l] eqn:Hb;
    [discriminate|].
  intros H. apply mine_loop_found in H as (rej & -> & -> & Hrej & Hm & Ha).
  exists l, rej. rewrite length_app. cbn [List.length].
  repeat split; auto; try lia. intros ->. reflexivity.
Qed.

Lemma found_counts_rejections_witness :
  let f := options (Some 1) None None None false 3 in
  mine two_step f seed0 4 =
    Some (Found addr_zero 1 (firstn 11 walk_bytes),
          [(seed0, addr_walk); (firstn 11 walk_bytes, addr_zero)]) /\
  exists (l : Locals) (rejected : Trace),
    build_conditions f = inr l /\
    [(seed0, addr_walk); (firstn 11 walk_bytes, addr_zero)]
      = rejected ++ [(firstn 11 walk_bytes, addr_zero)] /\
    Forall (fun sa =>
              conditions_met (pattern_size l) (conditions l) (snd sa)
              = inr false) rejected /\
    conditions_met (pattern_size l) (conditions l) addr_zero = inr true /\
    addr_zero = two_step (firstn 11 walk_bytes) /\
    1 = Z.of_nat (List.length rejected) /\
    Z.of_nat (List.length [(seed0, addr_walk);
                           (firstn 11 walk_bytes, addr_zero)]) = 1 + 1 /\
    (rejected = [] -> 1 = 0).
Proof.
  cbv zeta. split; [vm_compute; reflexivity|].
  apply (found_counts_rejections two_step
           (options (Some 1) None None None false 3) seed0 4).
  vm_compute; reflexivity.
Defined.

(** C2, as the code has it.  In a turn of the loop whose candidate is
    rejected while [iterations < max_iterations], the search goes on from
    the salt made of the first 11 bytes (positions 0 .. 10) of the
    canonical form of the rejected address, with the counter increased by
    one. *)
Theorem rejected_candidate_reseeds
  (compute_address : bytes -> string) (cell : Cell) (conds : list Closure)
  (k : Z) (fuel : nat) (salt : bytes) (iterations : Z) (canonical : bytes) :
  conditions_met cell conds (compute_address salt) = inr false ->
  iterations < k ->
  to_canonical_address (compute_address salt) = inr canonical ->
  exists next : bytes,
    mine_loop compute_address cell conds k (S fuel) salt iterations =
      match mine_loop compute_address cell conds k fuel next (iterations + 1)
      with
      | Some (o, tr) => Some (o, (salt, compute_address salt) :: tr)
      | None => None
      end /\
    List.length next = 11%nat /\
    (forall i, (i < 11)%nat -> nth_error next i = nth_error canonical i).
Proof.
  intros Hrej Hlt Hc. exists (firstn 11 canonical). split; [|split].
  - now apply mine_loop_rejected.
  - rewrite length_firstn, (canonical_length _ _ Hc). reflexivity.
  - intros i Hi. rewrite nth_error_firstn.
    destruct (Nat.ltb_spec i 11); [reflexivity | lia].
Qed.

Lemma rejected_candidate_reseeds_witness :
  let conds := [has_enough_leading_zeros 1] in
  conditions_met None conds (two_step seed0) = inr false /\
  0 < 3 /\
  to_canonical_address (two_step seed0) = inr walk_bytes /\
  exists next : bytes,
    mine_loop two_step None conds 3 (S 3) seed0 0 =
      match mine_loop two_step None conds 3 3 next (0 + 1) with
      | Some (o, tr) => Some (o, (seed0, two_step seed0) :: tr)
      | None => None
      end /\
    List.length next = 11%nat /\
    (forall i, (i < 11)%nat -> nth_error next i = nth_error walk_bytes i).
Proof.
  cbv zeta.
  split; [vm_compute; reflexivity|].
  split; [lia|].
  split; [vm_compute; reflexivity|].
  apply (rejected_candidate_reseeds two_step None
           [has_enough_leading_zeros 1] 3 3 seed0 0 walk_bytes).
  - vm_compute; reflexivity.
  - lia.
  - vm_compute; reflexivity.
Defined.

(** C2 as stated fails: after [addr_walk] is rejected the next salt is its
    bytes [01 .. 0b], not its low 11 bytes [0a .. 14]. *)
Lemma next_seed_not_low_bytes :
  let f := options (Some 1) None None None false 3 in
  to_canonical_address addr_walk = inr walk_bytes /\
  mine two_step f seed0 4 =
    Some (Found addr_zero 1 (firstn 11 walk_bytes),
          [(seed0, addr_walk); (firstn 11 walk_bytes, addr_zero)]) /\
  firstn 11 walk_bytes <> low_bytes 11 walk_bytes.
Proof.
  cbv zeta. split; [vm_compute; reflexivity|].
  split; [vm_compute; reflexivity|].
  vm_compute. discriminate.
Qed.

Lemma zero_count_conditions_spec_witness :
  1 <= 1 <= 20 /\
  to_canonical_address addr_zero = inr zero_bytes /\
  exists lead trail : bool,
    has_enough_leading_zeros 1 None addr_zero = inr lead /\
    has_enough_trailing_zeros 1 None addr_zero = inr trail /\
    (lead = true <->
       forall i, (i < Z.to_nat 1)%nat -> nth_error zero_bytes i = Some x00) /\
    (trail = true <->
       forall i, (20 - Z.to_nat 1 <= i < 20)%nat ->
                 nth_error zero_bytes i = Some x00).
Proof.
  split; [lia|]. split; [vm_compute; reflexivity|].
  apply (zero_count_conditions_spec 1 None addr_zero zero_bytes).
  - lia.
  - vm_compute; reflexivity.
Defined.

(** ** Invocations on which the command departs from its specification *)

(** C1.  With [--leading-zeros 1 --starts-with 00] (and likewise with
    [--trailing-zeros 1 --ends-with 00]) the exclusivity error is built
    but not raised: both conditions are appended, the search loop runs
    and a match is echoed. *)
Theorem exclusive_options_not_rejected :
  let lead := options (Some 1) (Some "00"%string) None None false 3 in
  let trail := options None None (Some 1) (Some "00"%string) false 3 in
  unraised_exclusivity_error lead =
    Some (UsageError
            "Cannot use both `--leading-zeros` and `--starts-with` together.") /\
  unraised_exclusivity_error trail =
    Some (UsageError
            "Cannot use both `--trailing-zeros` and `--ends-with` together.") /\
  (exists l, build_conditions lead = inr l /\
             List.length (conditions l) = 2%nat) /\
  (exists l, build_conditions trail = inr l /\
             List.length (conditions l) = 2%nat) /\
  mine (always addr_zero) lead seed0 1 =
    Some (Found addr_zero 0 seed0, [(seed0, addr_zero)]) /\
  mine (always addr_zero) trail seed0 1 =
    Some (Found addr_zero 0 seed0, [(seed0, addr_zero)]).
Proof.
  cbv zeta. repeat split; try (vm_compute; reflexivity);
    eexists; split; vm_compute; reflexivity.
Qed.

(** C3.  Without [--case-sensitive], an upper-case pattern never matches:
    only the address text is lowered before the comparison.  [AB] is
    refused on [0xab...] and on [0xAB...] while [ab] is found on both, and
    likewise [EF] against [ef] for [--ends-with]. *)
Theorem upper_case_pattern_never_matches :
  let starts p := options None (Some p) None None false 0 in
  let ends p := options None None None (Some p) false 0 in
  starts_with_pattern false "AB" (Some 2) addr_lower = inr false /\
  starts_with_pattern false "AB" (Some 2) addr_upper = inr false /\
  starts_with_pattern false "ab" (Some 2) addr_lower = inr true /\
  starts_with_pattern false "ab" (Some 2) addr_upper = inr true /\
  ends_with_pattern false "EF" (Some 2) addr_lower = inr false /\
  ends_with_pattern false "EF" (Some 2) addr_upper = inr false /\
  ends_with_pattern false "ef" (Some 2) addr_lower = inr true /\
  ends_with_pattern false "ef" (Some 2) addr_upper = inr true /\
  mine (always addr_lower) (starts "AB"%string) seed0 1 =
    Some (Exhausted 0, [(seed0, addr_lower)]) /\
  mine (always addr_lower) (starts "ab"%string) seed0 1 =
    Some (Found addr_lower 0 seed0, [(seed0, addr_lower)]) /\
  mine (always addr_lower) (ends "EF"%string) seed0 1 =
    Some (Exhausted 0, [(seed0, addr_lower)]) /\
  mine (always addr_lower) (ends "ef"%string) seed0 1 =
    Some (Found addr_lower 0 seed0, [(seed0, addr_lower)]).
Proof. cbv zeta. repeat split; vm_compute; reflexivity. Qed.

(** C5 as stated fails: an empty [--starts-with] is not rejected; the
    first candidate is echoed as found. *)
Lemma empty_pattern_not_rejected :
  let f := options None (Some EmptyString) None None false 5 in
  (exists l, build_conditions f = inr l /\
             List.length (conditions l) = 1%nat) /\
  mine (always addr_lower) f seed0 1 =
    Some (Found addr_lower 0 seed0, [(seed0, addr_lower)]) /\
  ~ (exists e tr, mine (always addr_lower) f seed0 1 = Some (Raised e, tr)).
Proof.
  cbv zeta. split; [eexists; split; vm_compute; reflexivity|].
  split; [vm_compute; reflexivity|].
  intros (e & tr & H). vm_compute in H. discriminate.
Qed.

Lemma non_hex_pattern_rejected_witness :
  let f := options None (Some "zz"%string) None None false 5 in
  (starts_with f = Some "zz"%string \/ ends_with f = Some "zz"%string) /\
  Py.set_le "zz" hex_alphabet = false /\
  exists e,
    mine (always addr_lower) f seed0 1 = Some (Raised e, []) /\
    is_usage_error e = true /\
    message_of e =
      (if bad_count (leading_zeros f) then "Cannot be less than 1"
       else if bad_pattern (starts_with f) then "Must be valid hex"
       else if bad_count (trailing_zeros f) then "Cannot be less than 1"
       else "Must be valid hex")%string.
Proof.
  cbv zeta. split; [left; reflexivity|]. split; [reflexivity|].
  apply (non_hex_pattern_rejected (always addr_lower)
           (options None (Some "zz"%string) None None false 5)
           "zz"%string seed0 1).
  - left; reflexivity.
  - reflexivity.
Defined.

(** C8 as stated fails: with [--leading-zeros 0 --starts-with zz] the
    usage error raised is the one of [--leading-zeros]. *)
Lemma non_hex_pattern_other_message :
  let f := options (Some 0) (Some "zz"%string) None None false 5 in
  mine (always addr_lower) f seed0 1 =
    Some (Raised (BadOptionUsage "leading_zeros" "Cannot be less than 1"), [])
  /\
  ~ (exists e tr,
        mine (always addr_lower) f seed0 1 = Some (Raised e, tr) /\
        Py.lower (message_of e) = "must be valid hex"%string).
Proof.
  cbv zeta. split; [vm_compute; reflexivity|].
  intros (e & tr & H & Hm). vm_compute in H. inversion H; subst.
  vm_compute in Hm. discriminate.
Qed.

Lemma non_positive_count_rejected_witness :
  let f := options None None (Some (-2)) None false 5 in
  (leading_zeros f = Some (-2) \/ trailing_zeros f = Some (-2)) /\
  -2 <= 0 /\
  exists e,
    mine (always addr_lower) f seed0 1 = Some (Raised e, []) /\
    is_usage_error e = true /\
    message_of e =
      (if bad_count (leading_zeros f) then "Cannot be less than 1"
       else if bad_pattern (starts_with f) then "Must be valid hex"
       else "Cannot be less than 1")%string /\
    (bad_count (leading_zeros f) = true ->
     e = BadOptionUsage "leading_zeros" "Cannot be less than 1").
Proof.
  cbv zeta. split; [right; reflexivity|]. split; [lia|].
  apply (non_positive_count_rejected (always addr_lower)
           (options None None (Some (-2)) None false 5) (-2) seed0 1).
  - right; reflexivity.
  - lia.
Defined.

(** C9 as stated fails: with [--starts-with zz --trailing-zeros 0] the
    usage error raised is the one of [--starts-with]. *)
Lemma non_positive_count_other_message :
  let f := options None (Some "zz"%string) (Some 0) None false 5 in
  mine (always addr_lower) f seed0 1 =
    Some (Raised (BadOptionUsage "starts_with" "Must be valid hex"), [])
  /\
  ~ (exists e tr,
        mine (always addr_lower) f seed0 1 = Some (Raised e, tr) /\
        Py.lower (message_of e) = "cannot be less than 1"%string).
Proof.
  cbv zeta. split; [vm_compute; reflexivity|].
  intros (e & tr & H & Hm). vm_compute in H. inversion H; subst.
  vm_compute in Hm. discriminate.
Qed.

(** ** The shared [pattern_size] cell *)

(** With both [--starts-with] and [--ends-with], the closures read the
    [pattern_size] assigned last, the length of the [--ends-with] pattern:
    [starts_with_pattern] then compares that many leading characters with
    its own, shorter or longer, pattern. *)
Lemma pattern_size_is_shared :
  let both := options None (Some "ab"%string) None (Some "cdef"%string) false 0 in
  let start := options None (Some "ab"%string) None None false 0 in
  let address := "0xab0000000000000000000000000000000000cdef"%string in
  (exists l, build_conditions both = inr l /\ pattern_size l = Some 4) /\
  mine (always address) start seed0 1 =
    Some (Found address 0 seed0, [(seed0, address)]) /\
  mine (always address) both seed0 1 =
    Some (Exhausted 0, [(seed0, address)]).
Proof.
  cbv zeta. split; [eexists; split; vm_compute; reflexivity|].
  split; vm_compute; reflexivity.
Qed.

(** * Further properties of the command *)

(** ** Text lemmas *)

Lemma length_take (n : nat) (s : string) :
  String.length (Py.take n s) = Nat.min n (String.length s).
Proof.
  revert s; induction n as [|n IH]; intros [|c r]; simpl; auto.
Qed.

Lemma length_lower (s : string) :
  String.length (Py.lower s) = String.length s.
Proof. induction s as [|c r IH]; simpl; auto. Qed.

Lemma lower_char_idem (c : ascii) :
  Py.lower_char (Py.lower_char c) = Py.lower_char c.
Proof. destruct c as [[] [] [] [] [] [] [] []]; reflexivity. Qed.

Lemma lower_idem (s : string) : Py.lower (Py.lower s) = Py.lower s.
Proof.
  induction s as [|c r IH]; simpl; [reflexivity|].
  now rewrite lower_char_idem, IH.
Qed.

Lemma lower_drop (n : nat) (s : string) :
  Py.lower (Py.drop n s) = Py.drop n (Py.lower s).
Proof.
  revert s; induction n as [|n IH]; intros [|c r]; simpl; auto.
Qed.

Lemma eqb_length (s t : string) :
  String.eqb s t = true -> String.length s = String.length t.
Proof. intros H. apply String.eqb_eq in H. now subst. Qed.

(** ** The locals of an accepted invocation *)

Lemma build_conditions_shape (f : Flags) (l : Locals) :
  build_conditions f = inr l ->
  conditions l = expected_conditions f /\
  pattern_size l = final_pattern_size f /\
  warned l = expected_warnings f.
Proof.
  destruct f as [lz sw tz ew cs k].
  unfold build_conditions, expected_conditions, final_pattern_size,
    expected_warnings, check_leading_zeros, check_starts_with,
    check_trailing_zeros, check_ends_with, check_some_condition.
  cbn [leading_zeros starts_with trailing_zeros ends_with case_sensitive].
  destruct lz as [n|]; [destruct (n <=? 0)|];
    (destruct sw as [p|]; [destruct (Py.set_le p hex_alphabet)|]);
    (destruct tz as [m|]; [destruct (m <=? 0)|]);
    (destruct ew as [q|]; [destruct (Py.set_le q hex_alphabet)|]);
    cbn [negb bind ret raise]; try discriminate;
    repeat case_if; cbn; intros E; inversion E; subst; cbn; auto.
Qed.

Lemma mine_loop_nonempty (compute_address : bytes -> string) (cell : Cell)
  (conds : list Closure) (k : Z) (fuel : nat) (salt : bytes) (it : Z)
  (o : Outcome) (tr : Trace) :
  mine_loop compute_address cell conds k fuel salt it = Some (o, tr) ->
  tr <> [].
Proof.
  destruct fuel as [|fuel]; [discriminate|]. cbn [mine_loop].
  destruct (conditions_met _ _ _) as [e|[|]];
    try (intros E; inversion E; discriminate).
  destruct (it >=? k); [intros E; inversion E; discriminate|].
  destruct (to_canonical_address _); [intros E; inversion E; discriminate|].
  destruct (mine_loop _ _ _ _ _ _ _) as [[o' tr']|];
    intros E; inversion E; discriminate.
Qed.

(** A reported match satisfies every closure of the options given, read
    with the last [pattern_size]. *)
Lemma found_satisfies_all (compute_address : bytes -> string) (f : Flags)
  (seed : bytes) (fuel : nat) (a : string) (n : Z) (s : bytes) (tr : Trace) :
  mine compute_address f seed fuel = Some (Found a n s, tr) ->
  a = compute_address s /\
  forall c, In c (expected_conditions f) ->
            c (final_pattern_size f) a = inr true.
Proof.
  unfold mine. destruct (build_conditions f) as [e|l] eqn:Hb; [discriminate|].
  intros H. apply mine_loop_found in H as (rej & _ & _ & _ & Hm & Ha).
  destruct (build_conditions_shape _ _ Hb) as (Ec & Ep & _).
  rewrite Ec, Ep in Hm. split; [exact Ha|].
  now apply conditions_met_true.
Qed.

(** ** Which invocations derive addresses *)

(** The usage error that asks for one of the four options is raised
    exactly when none of them is given, and then no address is derived. *)
Theorem must_use_one_iff_no_option
  (compute_address : bytes -> string) (f : Flags) (seed : bytes) (fuel : nat) :
  mine compute_address f seed fuel =
    Some (Raised (UsageError
            "Must use one of: --leading-zeros, --trailing-zeros, --starts-with, --ends-with"),
          []) <->
  leading_zeros f = None /\ starts_with f = None /\
  trailing_zeros f = None /\ ends_with f = None.
Proof.
  split.
  - unfold mine. destruct (build_conditions f) as [e|l] eqn:Hb.
    + intros E; inversion E; subst. apply build_conditions_raises in Hb.
      unfold first_rejection, no_option in Hb.
      repeat case_if_in Hb; try discriminate.
      destruct (leading_zeros f), (starts_with f), (trailing_zeros f),
        (ends_with f); try discriminate. auto.
    + intros E. apply mine_loop_nonempty in E. congruence.
  - intros (E1 & E2 & E3 & E4). apply mine_rejected.
    unfold first_rejection, no_option. rewrite E1, E2, E3, E4. reflexivity.
Qed.

(** An invocation ends without a single derivation exactly when the
    validation rejects it, and what is raised then is a click usage error;
    an accepted invocation derives at least one address. *)
Theorem no_derivation_iff_rejected
  (compute_address : bytes -> string) (f : Flags) (seed : bytes) (fuel : nat)
  (o : Outcome) (tr : Trace) :
  mine compute_address f seed fuel = Some (o, tr) ->
  (tr = [] <->
   exists e, build_conditions f = inl e /\ o = Raised e /\
             is_usage_error e = true).
Proof.
  unfold mine. destruct (build_conditions f) as [e|l] eqn:Hb.
  - intros E; inversion E; subst. split; [intros _|reflexivity].
    exists e. repeat split. apply build_conditions_raises in Hb.
    unfold first_rejection in Hb.
    repeat case_if_in Hb; inversion Hb; reflexivity.
  - intros E. apply mine_loop_nonempty in E. split; [congruence|].
    intros (e & He & _). discriminate.
Qed.

Lemma no_derivation_iff_rejected_witness :
  let f := options (Some 0) None None None false 3 in
  mine (always addr_walk) f seed0 1 =
    Some (Raised (BadOptionUsage "leading_zeros" "Cannot be less than 1"), [])
  /\
  (@nil (bytes * string) = [] <->
   exists e, build_conditions f = inl e /\
             Raised (BadOptionUsage "leading_zeros" "Cannot be less than 1")
             = Raised e /\
             is_usage_error e = true).
Proof.
  cbv zeta. split; [vm_compute; reflexivity|].
  apply (no_derivation_iff_rejected (always addr_walk)
           (options (Some 0) None None None false 3) seed0 1).
  vm_compute; reflexivity.
Defined.

(** ** Exhaustion *)

Section Exhaustion.

Variable compute_address : bytes -> string.
Variable cell : Cell.
Variable conds : list Closure.
Variable k : Z.

Hypothesis all_rejected :
  forall salt, conditions_met cell conds (compute_address salt) = inr false.
Hypothesis addresses_valid :
  forall salt, exists canonical,
    to_canonical_address (compute_address salt) = inr canonical.

Lemma mine_loop_exhausts (fuel : nat) :
  forall salt iterations,
    (Z.to_nat (k - iterations) < fuel)%nat ->
    exists tr,
      mine_loop compute_address cell conds k fuel salt iterations =
        Some (Exhausted (Z.max iterations k), tr) /\
      Z.of_nat (List.length tr) = Z.max iterations k - iterations + 1.
Proof.
  induction fuel as [|fuel IH]; intros salt it Hfuel; [lia|].
  cbn [mine_loop]. rewrite all_rejected.
  destruct (Z.geb_spec it k).
  - replace (Z.max it k) with it by lia.
    eexists. split; [reflexivity|]. cbn [List.length]. lia.
  - destruct (addresses_valid salt) as [c ->].
    destruct (IH (Py.slice_to 11 c) (it + 1)) as (tr & -> & Hl); [lia|].
    replace (Z.max (it + 1) k) with (Z.max it k) in * by lia.
    eexists. split; [reflexivity|]. cbn [List.length]. lia.
Qed.

End Exhaustion.

(** When every candidate is rejected, [mine] raises the exhaustion error
    after exactly [max 0 max_iterations + 1] derivations, and the count in
    its message is [max 0 max_iterations]: a zero or negative budget still
    tries one candidate and reports 0 iterations. *)
Theorem exhausted_after_all_rejected
  (compute_address : bytes -> string) (f : Flags) (l : Locals)
  (seed : bytes) (fuel : nat) :
  build_conditions f = inr l ->
  (forall salt,
      conditions_met (pattern_size l) (conditions l) (compute_address salt)
      = inr false) ->
  (forall salt, exists canonical,
      to_canonical_address (compute_address salt) = inr canonical) ->
  (Z.to_nat (max_iterations f) < fuel)%nat ->
  exists tr,
    mine compute_address f seed fuel =
      Some (Raised (UsageError
              ("Could not find solution in "
               ++ Py.str_of_int (Z.max 0 (max_iterations f))
               ++ " iterations.")%string), tr) /\
    Z.of_nat (List.length tr) = Z.max 0 (max_iterations f) + 1.
Proof.
  intros Hb Hrej Hvalid Hfuel. unfold mine. rewrite Hb.
  destruct (mine_loop_exhausts compute_address (pattern_size l)
              (conditions l) (max_iterations f) Hrej Hvalid fuel seed 0)
    as (tr & E & Hl).
  - now rewrite Z.sub_0_r.
  - exists tr. split; [exact E | lia].
Qed.

Lemma exhausted_after_all_rejected_witness :
  let f := options (Some 1) None None None false (-4) in
  (exists l, build_conditions f = inr l /\
     forall salt,
       conditions_met (pattern_size l) (conditions l) (always addr_walk salt)
       = inr false) /\
  (forall salt, exists canonical,
      to_canonical_address (always addr_walk salt) = inr canonical) /\
  (Z.to_nat (max_iterations f) < 1)%nat /\
  exists tr,
    mine (always addr_walk) f seed0 1 =
      Some (Raised (UsageError
              ("Could not find solution in "
               ++ Py.str_of_int (Z.max 0 (max_iterations f))
               ++ " iterations.")%string), tr) /\
    Z.of_nat (List.length tr) = Z.max 0 (max_iterations f) + 1.
Proof.
  cbv zeta.
  split; [eexists; split; [reflexivity | intros salt; vm_compute; reflexivity]|].
  split; [intros salt; eexists; vm_compute; reflexivity|].
  split; [cbn; lia|].
  eapply (exhausted_after_all_rejected (always addr_walk)
            (options (Some 1) None None None false (-4))).
  - reflexivity.
  - intros salt; vm_compute; reflexivity.
  - intros salt; eexists; vm_compute; reflexivity.
  - cbn; lia.
Defined.

(** ** The path of the search *)

Lemma mine_loop_salt_walk (compute_address : bytes -> string) (cell : Cell)
  (conds : list Closure) (k : Z) (fuel : nat) :
  forall salt it o tr,
    mine_loop compute_address cell conds k fuel salt it = Some (o, tr) ->
    salt_walk compute_address salt tr.
Proof.
  induction fuel as [|fuel IH]; intros salt it o tr H; [discriminate|].
  cbn [mine_loop] in H.
  destruct (conditions_met _ _ _) as [e|[|]];
    try (inversion H; subst; cbn; now auto).
  destruct (it >=? k); [inversion H; subst; cbn; now auto|].
  destruct (to_canonical_address (compute_address salt)) as [e|c] eqn:Hc;
    [inversion H; subst; cbn; now auto|].
  destruct (mine_loop _ _ _ _ fuel _ _) as [[o' tr']|] eqn:Er; [|discriminate].
  inversion H; subst. pose proof (mine_loop_nonempty _ _ _ _ _ _ _ _ _ Er).
  apply IH in Er. rewrite slice_to_firstn in Er by lia.
  cbn [salt_walk]. repeat split. destruct tr'; [congruence|].
  exists c. repeat split; auto.
  rewrite length_firstn, (canonical_length _ _ Hc). reflexivity.
Qed.

(** The derivations of a run form one chain: the first is made on the
    random seed, each returns the deriver's address for its salt, and each
    later one is made on an 11-byte salt, the first 11 bytes of the
    canonical form of the address returned just before.  The seed is the
    only salt that is not a prefix of a derived address. *)
Theorem trace_is_salt_walk
  (compute_address : bytes -> string) (f : Flags) (seed : bytes) (fuel : nat)
  (o : Outcome) (tr : Trace) :
  mine compute_address f seed fuel = Some (o, tr) ->
  salt_walk compute_address seed tr.
Proof.
  unfold mine. destruct (build_conditions f) as [e|l].
  - intros E; inversion E; subst. exact I.
  - apply mine_loop_salt_walk.
Qed.

Lemma trace_is_salt_walk_witness :
  let f := options (Some 1) None None None false 3 in
  mine two_step f seed0 4 =
    Some (Found addr_zero 1 (firstn 11 walk_bytes),
          [(seed0, addr_walk); (firstn 11 walk_bytes, addr_zero)]) /\
  salt_walk two_step seed0
    [(seed0, addr_walk); (firstn 11 walk_bytes, addr_zero)].
Proof.
  cbv zeta. split; [vm_compute; reflexivity|].
  apply (trace_is_salt_walk two_step
           (options (Some 1) None None None false 3) seed0 4
           (Found addr_zero 1 (firstn 11 walk_bytes))).
  vm_compute; reflexivity.
Defined.

(** ** Patterns that can never match *)

Lemma starts_with_insensitive_lower (p : string) (cell : Cell) (a : string) :
  starts_with_pattern false p cell a = inr true -> Py.lower p = p.
Proof.
  unfold starts_with_pattern. destruct cell as [n|]; [|discriminate].
  cbn [read_pattern_size bind ret]. intros E; inversion E as [H].
  apply String.eqb_eq in H. rewrite <- H. apply lower_idem.
Qed.

Lemma ends_with_insensitive_lower (p : string) (cell : Cell) (a : string) :
  ends_with_pattern false p cell a = inr true -> Py.lower p = p.
Proof.
  unfold ends_with_pattern. destruct cell as [n|]; [|discriminate].
  cbn [read_pattern_size bind ret]. intros E; inversion E as [H].
  apply String.eqb_eq in H. rewrite <- H. apply lower_idem.
Qed.

Lemma in_expected_starts (f : Flags) (p : string) :
  starts_with f = Some p ->
  In (starts_with_pattern (case_sensitive f) p) (expected_conditions f).
Proof.
  intros E. unfold expected_conditions. rewrite E.
  apply in_or_app; right. apply in_or_app; left. now left.
Qed.

Lemma in_expected_ends (f : Flags) (q : string) :
  ends_with f = Some q ->
  In (ends_with_pattern (case_sensitive f) q) (expected_conditions f).
Proof.
  intros E. unfold expected_conditions. rewrite E.
  do 3 (apply in_or_app; right). now left.
Qed.

(** Without [--case-sensitive], a [--starts-with] or [--ends-with] pattern
    with an upper-case letter is accepted by the validation but no address
    is ever reported for it, whatever the deriver returns. *)
Theorem upper_case_pattern_never_found
  (compute_address : bytes -> string) (f : Flags) (p : string)
  (seed : bytes) (fuel : nat) (a : string) (n : Z) (s : bytes) (tr : Trace) :
  case_sensitive f = false ->
  starts_with f = Some p \/ ends_with f = Some p ->
  Py.lower p <> p ->
  mine compute_address f seed fuel <> Some (Found a n s, tr).
Proof.
  intros Hcs Hp Hup H. apply found_satisfies_all in H as [_ H].
  destruct Hp as [Hp|Hp].
  - specialize (H _ (in_expected_starts _ _ Hp)). rewrite Hcs in H.
    now apply starts_with_insensitive_lower in H.
  - specialize (H _ (in_expected_ends _ _ Hp)). rewrite Hcs in H.
    now apply ends_with_insensitive_lower in H.
Qed.

Lemma upper_case_pattern_never_found_witness :
  let f := options None (Some "aB"%string) None None false 3 in
  case_sensitive f = false /\
  (starts_with f = Some "aB"%string \/ ends_with f = Some "aB"%string) /\
  Py.lower "aB" <> "aB"%string /\
  mine (always addr_upper) f seed0 4 <>
    Some (Found addr_upper 0 seed0, [(seed0, addr_upper)]).
Proof.
  cbv zeta. split; [reflexivity|]. split; [left; reflexivity|].
  split; [vm_compute; discriminate|].
  apply (upper_case_pattern_never_found (always addr_upper)
           (options None (Some "aB"%string) None None false 3) "aB"%string).
  - reflexivity.
  - left; reflexivity.
  - vm_compute; discriminate.
Defined.

(** With both [--starts-with] and [--ends-with], [starts_with_pattern]
    reads the [pattern_size] of the [--ends-with] pattern.  When the two
    patterns differ in length and the deriver returns an address of 40 hex
    digits after [0x], the leading text compared has the wrong length and
    no address is ever reported. *)
Theorem pattern_lengths_differ_never_found
  (compute_address : bytes -> string) (f : Flags) (p q : string)
  (seed : bytes) (fuel : nat) (a : string) (n : Z) (s : bytes) (tr : Trace) :
  starts_with f = Some p ->
  ends_with f = Some q ->
  String.length p <> String.length q ->
  (String.length q <= 40)%nat ->
  (forall salt, String.length (Py.replace_0x (compute_address salt)) = 40%nat) ->
  mine compute_address f seed fuel <> Some (Found a n s, tr).
Proof.
  intros Hp Hq Hne Hle Hlen H. apply found_satisfies_all in H as [Ha H].
  specialize (H _ (in_expected_starts _ _ Hp)).
  unfold final_pattern_size in H. rewrite Hq in H.
  unfold starts_with_pattern in H. cbn [read_pattern_size bind ret] in H.
  assert (E : String.length
                (Py.str_slice_to (Py.len q) (Py.replace_0x a))
              = String.length q).
  { unfold Py.str_slice_to, Py.clamp, Py.len.
    destruct (Z.ltb_spec (Z.of_nat (String.length q)) 0); [lia|].
    rewrite length_take, Nat2Z.id, Ha, Hlen. lia. }
  destruct (case_sensitive f); inversion H as [H'];
    apply eqb_length in H'; rewrite ?length_lower in H'; congruence.
Qed.

Lemma pattern_lengths_differ_never_found_witness :
  let f := options None (Some "ab"%string) None (Some "0ef"%string) false 3 in
  starts_with f = Some "ab"%string /\
  ends_with f = Some "0ef"%string /\
  String.length "ab" <> String.length "0ef" /\
  (String.length "0ef" <= 40)%nat /\
  (forall salt,
      String.length (Py.replace_0x (always addr_lower salt)) = 40%nat) /\
  mine (always addr_lower) f seed0 4 <>
    Some (Found addr_lower 0 seed0, [(seed0, addr_lower)]).
Proof.
  cbv zeta. split; [reflexivity|]. split; [reflexivity|].
  split; [cbn; lia|]. split; [cbn; lia|].
  split; [intros salt; reflexivity|].
  apply (pattern_lengths_differ_never_found (always addr_lower)
           (options None (Some "ab"%string) None (Some "0ef"%string) false 3)
           "ab"%string "0ef"%string).
  - reflexivity.
  - reflexivity.
  - cbn; lia.
  - cbn; lia.
  - intros salt; reflexivity.
Defined.

(** An empty [--ends-with] pattern is accepted, but its closure compares
    the whole address text with the empty pattern ([address[-0:]] is the
    whole string): no non-empty address is ever reported. *)
Theorem empty_ends_with_never_found
  (compute_address : bytes -> string) (f : Flags)
  (seed : bytes) (fuel : nat) (a : string) (n : Z) (s : bytes) (tr : Trace) :
  ends_with f = Some EmptyString ->
  (forall salt, compute_address salt <> EmptyString) ->
  mine compute_address f seed fuel <> Some (Found a n s, tr).
Proof.
  intros Hq Hne H. apply found_satisfies_all in H as [Ha H].
  specialize (H _ (in_expected_ends _ _ Hq)).
  unfold final_pattern_size in H. rewrite Hq in H.
  unfold ends_with_pattern in H. cbn in H.
  specialize (Hne s). rewrite <- Ha in Hne.
  destruct a as [|c r]; [congruence|].
  destruct (case_sensitive f); cbn in H; discriminate.
Qed.

Lemma empty_ends_with_never_found_witness :
  let f := options None None None (Some EmptyString) false 3 in
  ends_with f = Some EmptyString /\
  (forall salt, always addr_lower salt <> EmptyString) /\
  mine (always addr_lower) f seed0 4 <>
    Some (Found addr_lower 0 seed0, [(seed0, addr_lower)]).
Proof.
  cbv zeta. split; [reflexivity|]. split; [intros salt; discriminate|].
  apply (empty_ends_with_never_found (always addr_lower)
           (options None None None (Some EmptyString) false 3)).
  - reflexivity.
  - intros salt; discriminate.
Defined.

(** ** Warnings *)

(** After a successful validation, one warning has been issued for each
    option given whose count or pattern length exceeds 8, in the order
    leading-zeros, starts-with, trailing-zeros, ends-with; the closures
    appended are the same whether or not a warning was issued. *)
Theorem warnings_issued (f : Flags) (l : Locals) :
  build_conditions f = inr l ->
  warned l = expected_warnings f /\
  conditions l = expected_conditions f /\
  (List.length (warned l) <= List.length (conditions l))%nat.
Proof.
  intros H. destruct (build_conditions_shape _ _ H) as (Ec & _ & Ew).
  rewrite Ec, Ew. repeat split.
  unfold expected_warnings, expected_conditions.
  rewrite !length_app.
  destruct (leading_zeros f), (starts_with f), (trailing_zeros f),
    (ends_with f); repeat case_if; cbn [List.length]; lia.
Qed.

Lemma warnings_issued_witness :
  let f := options (Some 9) (Some "abc"%string) None
                   (Some "0123456789"%string) false 3 in
  exists l,
    build_conditions f = inr l /\
    warned l =
      ["`--leading-zeros` greater than 8 will likely not converge.";
       "`--ends-with` pattern size greater than 8 will likely not converge."]%string /\
    warned l = expected_warnings f /\
    conditions l = expected_conditions f /\
    (List.length (warned l) <= List.length (conditions l))%nat.
Proof.
  cbv zeta. eexists. split; [reflexivity|]. split; [reflexivity|].
  apply (warnings_issued
           (options (Some 9) (Some "abc"%string) None
                    (Some "0123456789"%string) false 3)).
  reflexivity.
Defined.

(** ** Zero counts beyond the claim's range *)

Lemma leading_true_inv (n : Z) (cell : Cell) (a : string) :
  1 <= n ->
  has_enough_leading_zeros n cell a = inr true ->
  exists c, to_canonical_address a = inr c /\
            Forall (eq x00) (firstn (Z.to_nat n) c).
Proof.
  intros Hn. unfold has_enough_leading_zeros.
  destruct (to_canonical_address a) as [e|c]; [discriminate|]. cbn [bind].
  rewrite slice_to_firstn by lia.
  destruct (Py.max _) as [e|m] eqn:Em; [discriminate|]. cbn [bind ret].
  intros E; inversion E as [H]. exists c. split; [reflexivity|].
  now apply (max_is_zero _ _ Em).
Qed.

Lemma trailing_slice (n : Z) (c : bytes) :
  1 <= n ->
  Py.slice_from (- n) c = skipn (List.length c - Z.to_nat n) c.
Proof.
  intros Hn. unfold Py.slice_from, Py.clamp.
  destruct (Z.ltb_spec (- n) 0); [|lia]. f_equal. lia.
Qed.

Lemma trailing_true_inv (n : Z) (cell : Cell) (a : string) :
  1 <= n ->
  has_enough_trailing_zeros n cell a = inr true ->
  exists c, to_canonical_address a = inr c /\
            Forall (eq x00) (skipn (List.length c - Z.to_nat n) c).
Proof.
  intros Hn. unfold has_enough_trailing_zeros.
  destruct (to_canonical_address a) as [e|c]; [discriminate|]. cbn [bind].
  rewrite trailing_slice by lia.
  destruct (Py.max _) as [e|m] eqn:Em; [discriminate|]. cbn [bind ret].
  intros E; inversion E as [H]. exists c. split; [reflexivity|].
  now apply (max_is_zero _ _ Em).
Qed.

Lemma max_all_zero (bs : bytes) :
  bs <> [] -> Forall (eq x00) bs ->
  (m <- Py.max bs ;; ret (m =? 0)%N) = inr true.
Proof.
  intros Hne Hz. destruct (max_nonempty _ Hne) as [m Em]. rewrite Em.
  cbn [bind]. unfold ret. f_equal. now apply (max_is_zero _ _ Em).
Qed.

(** A zero-count condition that holds for a count [n] holds for every
    smaller count [m >= 1]: asking for fewer zero bytes never loses a
    match. *)
Theorem zero_count_monotone (n m : Z) (cell : Cell) (a : string) :
  1 <= m <= n ->
  (has_enough_leading_zeros n cell a = inr true ->
   has_enough_leading_zeros m cell a = inr true) /\
  (has_enough_trailing_zeros n cell a = inr true ->
   has_enough_trailing_zeros m cell a = inr true).
Proof.
  intros Hm. split; intros H.
  - apply leading_true_inv in H as (c & Hc & Hz); [|lia].
    unfold has_enough_leading_zeros. rewrite Hc. cbn [bind].
    rewrite slice_to_firstn by lia. pose proof (canonical_length _ _ Hc).
    apply max_all_zero.
    + intros E. apply (f_equal (@List.length byte)) in E.
      rewrite length_firstn in E. cbn [List.length] in E. lia.
    + apply Forall_firstn_index. intros i x Hi Hx.
      apply (proj1 (Forall_firstn_index _ _ _) Hz i x); [lia | exact Hx].
  - apply trailing_true_inv in H as (c & Hc & Hz); [|lia].
    unfold has_enough_trailing_zeros. rewrite Hc. cbn [bind].
    rewrite trailing_slice by lia. pose proof (canonical_length _ _ Hc).
    apply max_all_zero.
    + intros E. apply (f_equal (@List.length byte)) in E.
      rewrite length_skipn in E. cbn [List.length] in E. lia.
    + apply Forall_skipn_index. intros i x Hi Hx.
      apply (proj1 (Forall_skipn_index _ _ _) Hz i x); [lia | exact Hx].
Qed.

Lemma zero_count_monotone_witness :
  1 <= 1 <= 2 /\
  has_enough_leading_zeros 2 None addr_zero2 = inr true /\
  has_enough_trailing_zeros 2 None addr_zero2 = inr true /\
  (has_enough_leading_zeros 2 None addr_zero2 = inr true ->
   has_enough_leading_zeros 1 None addr_zero2 = inr true) /\
  (has_enough_trailing_zeros 2 None addr_zero2 = inr true ->
   has_enough_trailing_zeros 1 None addr_zero2 = inr true).
Proof.
  split; [lia|]. split; [vm_compute; reflexivity|].
  split; [vm_compute; reflexivity|].
  apply (zero_count_monotone 2 1 None addr_zero2). lia.
Defined.

(** A zero count of 20 or more asks for the zero address: for every such
    count the leading and the trailing condition return the same answer,
    true exactly when all 20 bytes of the canonical address are 0. *)
Theorem zero_count_saturates
  (n : Z) (cell : Cell) (a : string) (canonical : bytes) :
  20 <= n ->
  to_canonical_address a = inr canonical ->
  exists b : bool,
    has_enough_leading_zeros n cell a = inr b /\
    has_enough_trailing_zeros n cell a = inr b /\
    (b = true <-> canonical = repeat x00 20).
Proof.
  intros Hn Hc. pose proof (canonical_length _ _ Hc) as Hlen.
  unfold has_enough_leading_zeros, has_enough_trailing_zeros.
  rewrite Hc. cbn [bind].
  rewrite slice_to_firstn by lia. rewrite trailing_slice by lia.
  rewrite firstn_all2 by lia.
  replace (List.length canonical - Z.to_nat n)%nat with 0%nat by lia.
  cbn [skipn].
  destruct (max_nonempty canonical) as [m Em].
  { intros ->. discriminate. }
  rewrite Em. cbn [bind ret]. exists (m =? 0)%N. repeat split.
  - intros H. apply (max_is_zero _ _ Em) in H.
    apply Forall_eq_repeat in H. rewrite Hlen in H. now symmetry.
  - intros E. apply (max_is_zero _ _ Em). rewrite E.
    apply Forall_forall. intros x Hx. apply repeat_spec in Hx. now symmetry.
Qed.

Lemma zero_count_saturates_witness :
  20 <= 25 /\
  to_canonical_address ZERO_ADDRESS = inr (repeat x00 20) /\
  exists b : bool,
    has_enough_leading_zeros 25 None ZERO_ADDRESS = inr b /\
    has_enough_trailing_zeros 25 None ZERO_ADDRESS = inr b /\
    (b = true <-> repeat x00 20 = repeat x00 20).
Proof.
  split; [lia|]. split; [vm_compute; reflexivity|].
  apply (zero_count_saturates 25 None ZERO_ADDRESS (repeat x00 20)).
  - lia.
  - vm_compute; reflexivity.
Defined.

(** * The [--salt] callback *)

(** ** Hex text and its decoding *)

Lemma decode_hex_cons (b : byte) (r : bytes) :
  decode_hex (Py.hex (b :: r)) =
  match decode_hex (Py.hex r) with
  | Some bs => Some (b :: bs)
  | None => None
  end.
Proof. destruct b; reflexivity. Qed.

Lemma decode_hex_hex (bs : bytes) : decode_hex (Py.hex bs) = Some bs.
Proof.
  induction bs as [|b r IH]; [reflexivity|].
  now rewrite decode_hex_cons, IH.
Qed.

Lemma length_hex (bs : bytes) :
  String.length (Py.hex bs) = (2 * List.length bs)%nat.
Proof. induction bs as [|b r IH]; simpl; [reflexivity | rewrite IH; lia]. Qed.

Lemma remove_0x_prefix_hex (bs : bytes) :
  remove_0x_prefix (Py.hex bs) = Py.hex bs.
Proof. destruct bs as [|b r]; [reflexivity | destruct b; reflexivity]. Qed.

Lemma odd_double (n : nat) : Nat.odd (2 * n) = false.
Proof. rewrite Nat.odd_mul. reflexivity. Qed.

(** The salt text echoed by [mine] ([salt.hex()]) is read back by the
    [--salt] callback as the same bytes, with or without a [0x] prefix in
    front of it. *)
Theorem convert_salt_reads_back_hex (salt : bytes) :
  convert_salt (Some (Py.hex salt)) = SaltBytes salt /\
  convert_salt (Some ("0x" ++ Py.hex salt)%string) = SaltBytes salt.
Proof.
  unfold convert_salt, to_bytes_hexstr. split.
  - rewrite length_hex, odd_double. cbn iota.
    rewrite remove_0x_prefix_hex, decode_hex_hex. reflexivity.
  - cbn [String.append String.length].
    rewrite Nat.odd_succ_succ, length_hex, odd_double.
    cbn [remove_0x_prefix]. rewrite decode_hex_hex. reflexivity.
Qed.

Lemma hex_val_mem (c : ascii) :
  match hex_val c with
  | Some v => Py.mem c hex_alphabet = true /\ (v < 16)%N
  | None => Py.mem c hex_alphabet = false
  end.
Proof.
  destruct c as [[] [] [] [] [] [] [] []]; vm_compute; auto.
Qed.

Lemma of_N_small (v : N) : (v < 256)%N -> exists b, Byte.of_N v = Some b.
Proof.
  intros Hv. pose proof (Byte.to_of_N_option_map v) as H.
  destruct (Byte.of_N v) as [b|]; [eauto|].
  destruct (N.leb_spec v 255); [discriminate | lia].
Qed.

Lemma decode_hex_ok (n : nat) :
  forall d, String.length d = (2 * n)%nat ->
            Py.set_le d hex_alphabet = true ->
            exists b, decode_hex d = Some b /\ List.length b = n.
Proof.
  induction n as [|n IH]; intros d Hlen Hhex.
  - destruct d; [|discriminate]. exists []. auto.
  - destruct d as [|h [|l r]]; try (cbn in Hlen; lia).
    cbn [Py.set_le] in Hhex.
    apply andb_prop in Hhex as [Hh Hhex].
    apply andb_prop in Hhex as [Hl Hr].
    destruct (IH r) as (bs & Hbs & Hn); [cbn in Hlen; lia | exact Hr |].
    cbn [decode_hex]. rewrite Hbs.
    pose proof (hex_val_mem h) as Vh. pose proof (hex_val_mem l) as Vl.
    destruct (hex_val h) as [hv|]; [|congruence].
    destruct (hex_val l) as [lv|]; [|congruence].
    destruct (of_N_small (16 * hv + lv)) as [b ->]; [lia|].
    exists (b :: bs). cbn [List.length]. auto.
Qed.

Lemma decode_hex_set_le (bs : bytes) :
  forall d, decode_hex d = Some bs -> Py.set_le d hex_alphabet = true.
Proof.
  induction bs as [|b bs IH]; intros d H.
  - destruct d as [|h [|l r]]; cbn [decode_hex] in H; try discriminate;
      [reflexivity|].
    destruct (hex_val h), (hex_val l), (decode_hex r); try discriminate.
    destruct (Byte.of_N _); discriminate.
  - destruct d as [|h [|l r]]; cbn [decode_hex] in H; try discriminate.
    pose proof (hex_val_mem h) as Vh. pose proof (hex_val_mem l) as Vl.
    destruct (hex_val h), (hex_val l), (decode_hex r) as [bs'|] eqn:Er;
      try discriminate.
    destruct (Byte.of_N _); [|discriminate]. inversion H; subst.
    cbn [Py.set_le]. rewrite (proj1 Vh), (proj1 Vl), (IH r Er). reflexivity.
Qed.

Lemma remove_0x_prefix_cases (s : string) :
  remove_0x_prefix s = s \/
  exists c d, s = String c (String d (remove_0x_prefix s)).
Proof.
  destruct s as [|c r]; [left; reflexivity|].
  destruct c as [[] [] [] [] [] [] [] []]; try (left; reflexivity);
    destruct r as [|d r]; try (left; reflexivity);
    destruct d as [[] [] [] [] [] [] [] []];
    first [left; reflexivity | right; eexists _, _; reflexivity].
Qed.

Lemma odd_remove_0x_prefix (s : string) :
  Nat.odd (String.length (remove_0x_prefix s)) = Nat.odd (String.length s).
Proof.
  destruct (remove_0x_prefix_cases s) as [->|(c & d & E)]; [reflexivity|].
  rewrite E at 2. cbn [String.length]. now rewrite Nat.odd_succ_succ.
Qed.

(** The [--salt] callback never fails.  A text whose characters after an
    optional [0x]/[0X] prefix are all hex digits becomes bytes, one byte
    for two digits, an odd number of digits being padded with a leading
    zero digit; any other text is passed on unchanged as a string. *)
Theorem convert_salt_spec (s : string) :
  let digits := remove_0x_prefix s in
  if Py.set_le digits hex_alphabet then
    exists b,
      convert_salt (Some s) = SaltBytes b /\
      decode_hex (if Nat.odd (String.length digits)
                  then String "0" digits else digits) = Some b /\
      List.length b = Nat.div2 (S (String.length digits))
  else convert_salt (Some s) = SaltStr s.
Proof.
  cbv zeta. unfold convert_salt, to_bytes_hexstr.
  rewrite odd_remove_0x_prefix.
  destruct (Nat.odd (String.length s)) eqn:Hodd.
  - cbn [String.append remove_0x_prefix].
    rewrite <- odd_remove_0x_prefix in Hodd.
    apply Nat.odd_spec in Hodd as [m Hm].
    destruct (Py.set_le (remove_0x_prefix s) hex_alphabet) eqn:Hhex.
    + destruct (decode_hex_ok (S m) (String "0" (remove_0x_prefix s)))
        as (b & Hb & Hl).
      * cbn [String.length]. lia.
      * cbn [Py.set_le]. rewrite Hhex. reflexivity.
      * rewrite Hb. exists b. repeat split. rewrite Hl, Hm.
        replace (S (2 * m + 1)) with (2 * S m)%nat by lia.
        now rewrite Nat.div2_double.
    + destruct (decode_hex _) as [b|] eqn:Hb; [|reflexivity].
      apply decode_hex_set_le in Hb. cbn [Py.set_le] in Hb.
      rewrite Hhex, andb_false_r in Hb. discriminate.
  - rewrite <- odd_remove_0x_prefix in Hodd.
    assert (He : Nat.even (String.length (remove_0x_prefix s)) = true).
    { rewrite <- Nat.negb_odd, Hodd. reflexivity. }
    apply Nat.even_spec in He as [m Hm].
    destruct (Py.set_le (remove_0x_prefix s) hex_alphabet) eqn:Hhex.
    + destruct (decode_hex_ok m (remove_0x_prefix s) Hm Hhex) as (b & Hb & Hl).
      rewrite Hb. exists b. repeat split. rewrite Hl, Hm.
      now rewrite Nat.div2_succ_double.
    + destruct (decode_hex _) as [b|] eqn:Hb; [|reflexivity].
      apply decode_hex_set_le in Hb. congruence.
Qed.

(** * Contract resolution *)

(** ** Splitting a text on a separator *)

Lemma mem_append (c : ascii) (s t : string) :
  Py.mem c (s ++ t)%string = Py.mem c s || Py.mem c t.
Proof.
  induction s as [|x s IH]; cbn [String.append Py.mem]; [reflexivity|].
  now rewrite IH, orb_assoc.
Qed.

Lemma str_append_assoc (s t u : string) :
  ((s ++ t) ++ u)%string = (s ++ (t ++ u))%string.
Proof.
  induction s as [|c s IH]; cbn [String.append]; [reflexivity | now rewrite IH].
Qed.

Lemma str_split_nonempty (sep : ascii) (s : string) : str_split sep s <> [].
Proof.
  destruct s as [|c r]; cbn [str_split]; [discriminate|].
  destruct (Ascii.eqb c sep); [discriminate|].
  destruct (str_split sep r); discriminate.
Qed.

Lemma str_split_cons (sep : ascii) (s : string) :
  forall h t,
    str_split sep s = h :: t ->
    Py.mem sep h = false /\
    ((t = [] /\ s = h) \/
     exists r, s = (h ++ String sep r)%string /\ str_split sep r = t).
Proof.
  induction s as [|c r IH]; intros h t H; cbn [str_split] in H.
  - inversion H; subst. split; [reflexivity | left; auto].
  - destruct (Ascii.eqb_spec c sep) as [->|Hne].
    + inversion H; subst. split; [reflexivity|]. right. exists r. auto.
    + destruct (str_split sep r) as [|h' t'] eqn:E;
        [now apply str_split_nonempty in E|].
      inversion H; subst. destruct (IH _ _ eq_refl) as [Hm Hs].
      split.
      * cbn [Py.mem]. rewrite Hm.
        destruct (Ascii.eqb_spec sep c); [congruence | reflexivity].
      * destruct Hs as [[-> ->]|(r' & -> & Hr)]; [left; auto|].
        right. exists r'. auto.
Qed.

Lemma str_split_two (sep : ascii) (s a b : string) :
  str_split sep s = [a; b] ->
  s = (a ++ String sep b)%string /\
  Py.mem sep a = false /\ Py.mem sep b = false.
Proof.
  intros H. apply str_split_cons in H as [Ha [[? _]|(r & -> & Hr)]];
    [discriminate|].
  apply str_split_cons in Hr as [Hb [[_ ->]|(r' & _ & Hr')]].
  - auto.
  - now apply str_split_nonempty in Hr'.
Qed.

Lemma str_split_none (sep : ascii) (s : string) :
  Py.mem sep s = false -> str_split sep s = [s].
Proof.
  induction s as [|c r IH]; cbn [Py.mem str_split]; [reflexivity|].
  intros H. apply orb_false_elim in H as [Hc Hr].
  destruct (Ascii.eqb_spec c sep) as [->|_];
    [now rewrite Ascii.eqb_refl in Hc|].
  now rewrite (IH Hr).
Qed.

Lemma str_split_join (sep : ascii) (a b : string) :
  Py.mem sep a = false -> Py.mem sep b = false ->
  str_split sep (a ++ String sep b)%string = [a; b].
Proof.
  intros Ha Hb. induction a as [|c r IH]; cbn [String.append str_split].
  - rewrite Ascii.eqb_refl, (str_split_none _ _ Hb). reflexivity.
  - cbn [Py.mem] in Ha. apply orb_false_elim in Ha as [Hc Hr].
    destruct (Ascii.eqb_spec c sep) as [->|_];
      [now rewrite Ascii.eqb_refl in Hc|].
    now rewrite (IH Hr).
Qed.

Section Resolution.

Context {Contract : Type}.
Implicit Types (project : @Cli.Project Contract) (c : Contract).

Lemma search_versions_find (deps : list (@Cli.Dependency Contract))
  (ver name : string) :
  Cli.search_versions deps ver name =
  match find (fun d => String.eqb (Cli.version d) ver) deps with
  | Some d => Cli.dep_contracts d name
  | None => None
  end.
Proof.
  induction deps as [|d deps IH]; cbn [Cli.search_versions find];
    [reflexivity|].
  destruct (String.eqb (Cli.version d) ver); [reflexivity | exact IH].
Qed.

(** What [get_contract_type] can return.  A contract comes either from
    the local project, for a name without a colon, or from an installed
    dependency, for a text of the form [dep@version:Name] with exactly one
    colon and, before it, exactly one [@]: then it is what the first
    installed version of [dep] whose version text equals [version] has
    under [Name].  A failure says that the text is not a valid dependency
    specifier when it has a colon, and that it is not a local type
    otherwise; the local project is never consulted for a text with a
    colon. *)
Theorem get_contract_type_outcomes project (value : string) :
  match Cli.get_contract_type project value with
  | Cli.Resolved c =>
      (Py.mem ":" value = false /\ Cli.contracts project value = Some c) \/
      (exists dep ver name d,
          value = (dep ++ "@" ++ ver ++ ":" ++ name)%string /\
          Py.mem ":" dep = false /\ Py.mem "@" dep = false /\
          Py.mem ":" ver = false /\ Py.mem "@" ver = false /\
          Py.mem ":" name = false /\
          find (fun d => String.eqb (Cli.version d) ver)
               (Cli.get_versions project dep) = Some d /\
          Cli.dep_contracts d name = Some c)
  | Cli.BadParameter m =>
      m = if Py.mem ":" value
          then ("'" ++ value ++ "' is not a valid dependency specifier.")%string
          else ("'" ++ value ++ "' is not a type in your local project.")%string
  end.
Proof.
  unfold Cli.get_contract_type, Cli.not_a_specifier, Cli.not_a_local_type.
  destruct (Py.mem ":" value) eqn:Hcolon.
  - destruct (str_split ":" value) as [|dependency [|name [|]]] eqn:Es;
      try reflexivity.
    destruct (str_split "@" dependency) as [|dep [|ver [|]]] eqn:Ed;
      try reflexivity.
    rewrite search_versions_find.
    destruct (find _ _) as [d|] eqn:Ef; [|reflexivity].
    destruct (Cli.dep_contracts d name) as [c|] eqn:Ec; [|reflexivity].
    right. apply str_split_two in Es as (-> & Hd & Hn).
    apply str_split_two in Ed as (-> & Hdep & Hver).
    rewrite mem_append in Hd. cbn [Py.mem] in Hd.
    apply orb_false_elim in Hd as [Hd1 Hd2].
    apply orb_false_elim in Hd2 as [_ Hd2].
    exists dep, ver, name, d. repeat split; auto.
    rewrite str_append_assoc. reflexivity.
  - destruct (Cli.contracts project value) as [c|] eqn:Ec; [|reflexivity].
    left. auto.
Qed.

(** A well-formed specifier [dep@version:Name] is decided by the first
    installed version of [dep] whose version text equals [version], and by
    it alone: if that one lacks [Name] the lookup fails, even when a later
    entry with the same version text has it. *)
Theorem get_contract_type_first_match project (dep ver name : string) :
  Py.mem ":" dep = false -> Py.mem "@" dep = false ->
  Py.mem ":" ver = false -> Py.mem "@" ver = false ->
  Py.mem ":" name = false ->
  let value := (dep ++ "@" ++ ver ++ ":" ++ name)%string in
  Cli.get_contract_type project value =
  match find (fun d => String.eqb (Cli.version d) ver)
             (Cli.get_versions project dep) with
  | Some d =>
      match Cli.dep_contracts d name with
      | Some c => Cli.Resolved c
      | None => Cli.not_a_specifier value
      end
  | None => Cli.not_a_specifier value
  end.
Proof.
  intros Hd1 Hd2 Hv1 Hv2 Hn. cbv zeta. unfold Cli.get_contract_type.
  assert (Hdv : Py.mem ":" (dep ++ "@" ++ ver)%string = false).
  { rewrite mem_append. cbn [String.append Py.mem]. rewrite Hd1, Hv1.
    reflexivity. }
  replace (dep ++ "@" ++ ver ++ ":" ++ name)%string
    with ((dep ++ "@" ++ ver) ++ String ":" name)%string
    by (rewrite str_append_assoc; reflexivity).
  rewrite mem_append. cbn [Py.mem]. rewrite Ascii.eqb_refl, orb_true_r.
  rewrite (str_split_join ":" _ _ Hdv Hn).
  change (dep ++ "@" ++ ver)%string with (dep ++ String "@" ver)%string.
  rewrite (str_split_join "@" _ _ Hd2 Hv2).
  rewrite search_versions_find.
  destruct (find _ _) as [d|]; [|reflexivity].
  destruct (Cli.dep_contracts d name); reflexivity.
Qed.

End Resolution.

Lemma get_contract_type_first_match_witness :
  Py.mem ":" "lib" = false /\ Py.mem "@" "lib" = false /\
  Py.mem ":" "1.0" = false /\ Py.mem "@" "1.0" = false /\
  Py.mem ":" "Token" = false /\
  Cli.get_contract_type sample_project "lib@1.0:Token" =
    Cli.BadParameter "'lib@1.0:Token' is not a valid dependency specifier." /\
  let value := ("lib" ++ "@" ++ "1.0" ++ ":" ++ "Token")%string in
  Cli.get_contract_type sample_project value =
  match find (fun d => String.eqb (Cli.version d) "1.0")
             (Cli.get_versions sample_project "lib") with
  | Some d =>
      match Cli.dep_contracts d "Token" with
      | Some c => Cli.Resolved c
      | None => Cli.not_a_specifier value
      end
  | None => Cli.not_a_specifier value
  end.
Proof.
  repeat (split; [reflexivity|]).
  apply (get_contract_type_first_match sample_project "lib" "1.0" "Token");
    reflexivity.
Defined.

(** * From [mine] to [address] *)

(** When [mine] echoes a match, running [address] with the same creation
    type, deployer, protection switches, contract and constructor
    arguments, with [--salt] set to the echoed salt text and the nonce
    that [compute_address] takes by default, echoes the same address. *)
Theorem address_reproduces_mined
  {Contract CreationType : Type}
  (compute_address : @Cli.ComputeArgs Contract CreationType -> string)
  (nonce_default : option Z) (create_type : CreationType) (f : Flags)
  (deployer_address : string) (sender_protection redeploy_protection : bool)
  (contract_type : Contract) (constructor_args : list string)
  (seed : bytes) (fuel : nat) (a : string) (n : Z) (s : bytes) (tr : Trace) :
  Cli.mine_command compute_address nonce_default create_type f
    deployer_address sender_protection redeploy_protection
    contract_type constructor_args seed fuel
  = Some (Found a n s, tr) ->
  Cli.address compute_address create_type nonce_default
    (convert_salt (Some (Py.hex s)))
    deployer_address sender_protection redeploy_protection
    contract_type constructor_args
  = a.
Proof.
  unfold Cli.mine_command. intros H.
  apply found_satisfies_all in H as [-> _].
  unfold Cli.address, Cli.mine_deriver, convert_salt, to_bytes_hexstr.
  rewrite length_hex, odd_double. cbn iota.
  rewrite remove_0x_prefix_hex, decode_hex_hex. reflexivity.
Qed.

Lemma address_reproduces_mined_witness :
  let f := options (Some 1) None None None false 3 in
  Cli.mine_command sample_compute None 2%nat f addr_lower true true
    5%nat [] seed0 4
  = Some (Found addr_zero 1 (firstn 11 walk_bytes),
          [(seed0, addr_walk); (firstn 11 walk_bytes, addr_zero)]) /\
  Cli.address sample_compute 2%nat None
    (convert_salt (Some (Py.hex (firstn 11 walk_bytes))))
    addr_lower true true 5%nat []
  = addr_zero.
Proof.
  cbv zeta. split; [vm_compute; reflexivity|].
  apply (address_reproduces_mined sample_compute None 2%nat
           (options (Some 1) None None None false 3) addr_lower true true
           5%nat [] seed0 4 addr_zero 1 (firstn 11 walk_bytes)
           [(seed0, addr_walk); (firstn 11 walk_bytes, addr_zero)]).
  vm_compute; reflexivity.
Defined.

(** * What the pattern closures compare *)

Lemma take_drop (n : nat) (s : string) :
  (Py.take n s ++ Py.drop n s)%string = s.
Proof.
  revert s; induction n as [|n IH]; intros [|c r]; cbn; auto.
  now rewrite IH.
Qed.

Lemma length_str_append (s t : string) :
  String.length (s ++ t) = (String.length s + String.length t)%nat.
Proof. induction s as [|c s IH]; cbn; auto. Qed.

Lemma take_append_exact (p rest : string) :
  Py.take (String.length p) (p ++ rest) = p.
Proof. induction p as [|c p IH]; cbn; [now destruct rest | now rewrite IH]. Qed.

Lemma drop_append_exact (front p : string) :
  Py.drop (String.length front) (front ++ p) = p.
Proof. induction front as [|c s IH]; cbn; [now destruct p | exact IH]. Qed.

Lemma lower_take (n : nat) (s : string) :
  Py.lower (Py.take n s) = Py.take n (Py.lower s).
Proof.
  revert s; induction n as [|n IH]; intros [|c r]; cbn; auto.
  now rewrite IH.
Qed.

Lemma replace_0x_id (d : string) :
  Py.mem "x" d = false -> Py.replace_0x d = d.
Proof.
  induction d as [|c r IH]; [reflexivity|].
  cbn [Py.mem]. intros H. apply orb_false_elim in H as [_ Hr].
  specialize (IH Hr). cbn [Py.replace_0x].
  destruct r as [|d0 r']; [reflexivity|].
  cbn [Py.mem] in Hr. apply orb_false_elim in Hr as [Hd0 _].
  rewrite Ascii.eqb_sym in Hd0. rewrite Hd0, andb_false_r.
  now rewrite IH.
Qed.

Lemma replace_0x_prefixed (d : string) :
  Py.mem "x" d = false -> Py.replace_0x ("0x" ++ d)%string = d.
Proof.
  intros H. cbn [String.append Py.replace_0x].
  change (Ascii.eqb "0" "0" && Ascii.eqb "x" "x") with true. cbn iota.
  now apply replace_0x_id.
Qed.

(** With [--case-sensitive] and [pattern_size] equal to the length of the
    pattern, [starts_with_pattern] is true exactly when the digits after
    [0x] begin with the pattern, and, for a pattern that is not empty,
    [ends_with_pattern] exactly when the address text ends with it. *)
Theorem case_sensitive_patterns_exact (p d a : string) :
  Py.mem "x" d = false ->
  p <> EmptyString ->
  (starts_with_pattern true p (Some (Py.len p)) ("0x" ++ d)%string = inr true <->
   exists rest, d = (p ++ rest)%string) /\
  (ends_with_pattern true p (Some (Py.len p)) a = inr true <->
   exists front, a = (front ++ p)%string).
Proof.
  intros Hx Hp. split.
  - unfold starts_with_pattern. cbn [read_pattern_size bind ret].
    rewrite (replace_0x_prefixed _ Hx).
    unfold Py.str_slice_to, Py.clamp, Py.len.
    destruct (Z.ltb_spec (Z.of_nat (String.length p)) 0); [lia|].
    rewrite Nat2Z.id. split.
    + intros E; inversion E as [E']. apply String.eqb_eq in E'.
      exists (Py.drop (String.length p) d).
      rewrite <- E' at 1. symmetry. apply take_drop.
    + intros [rest ->]. rewrite take_append_exact, String.eqb_refl.
      reflexivity.
  - unfold ends_with_pattern. cbn [read_pattern_size bind ret].
    unfold Py.str_slice_from, Py.clamp, Py.len.
    assert (Hpos : (0 < String.length p)%nat)
      by (destruct p; [congruence | cbn; lia]).
    destruct (Z.ltb_spec (- Z.of_nat (String.length p)) 0); [|lia].
    split.
    + intros E; inversion E as [E']. apply String.eqb_eq in E'.
      match type of E' with Py.drop ?k _ = _ => exists (Py.take k a) end.
      rewrite <- E' at 2. symmetry. apply take_drop.
    + intros [front ->]. rewrite length_str_append.
      replace (Z.to_nat _) with (String.length front) by lia.
      rewrite drop_append_exact, String.eqb_refl. reflexivity.
Qed.

Lemma case_sensitive_patterns_exact_witness :
  Py.mem "x" "AB000000000000000000000000000000000000EF" = false /\
  "AB"%string <> EmptyString /\
  (starts_with_pattern true "AB" (Some (Py.len "AB"))
     ("0x" ++ "AB000000000000000000000000000000000000EF")%string = inr true <->
   exists rest,
     "AB000000000000000000000000000000000000EF"%string = ("AB" ++ rest)%string)
  /\
  (ends_with_pattern true "AB" (Some (Py.len "AB")) addr_upper = inr true <->
   exists front, addr_upper = (front ++ "AB")%string).
Proof.
  split; [reflexivity|]. split; [discriminate|].
  apply (case_sensitive_patterns_exact "AB"%string
           "AB000000000000000000000000000000000000EF"%string addr_upper).
  - reflexivity.
  - discriminate.
Defined.

(** Without [--case-sensitive], the two pattern closures do not look at
    the letter case of the address digits: two addresses [0x...] whose
    digits differ only in case get the same answer, whatever the pattern
    and the content of [pattern_size]. *)
Theorem insensitive_ignores_address_case
  (p : string) (cell : Cell) (d d' : string) :
  Py.mem "x" d = false ->
  Py.mem "x" d' = false ->
  Py.lower d = Py.lower d' ->
  starts_with_pattern false p cell ("0x" ++ d)%string =
    starts_with_pattern false p cell ("0x" ++ d')%string /\
  ends_with_pattern false p cell ("0x" ++ d)%string =
    ends_with_pattern false p cell ("0x" ++ d')%string.
Proof.
  intros Hx Hx' Hl.
  assert (Hlen : String.length d = String.length d').
  { rewrite <- (length_lower d), Hl. apply length_lower. }
  unfold starts_with_pattern, ends_with_pattern.
  destruct cell as [n|]; [|split; reflexivity].
  cbn [read_pattern_size bind ret]. split.
  - rewrite !replace_0x_prefixed by assumption.
    unfold Py.str_slice_to. rewrite !lower_take, Hl, Hlen. reflexivity.
  - unfold Py.str_slice_from. rewrite !lower_drop.
    cbn [String.append String.length Py.lower]. rewrite Hl, Hlen.
    reflexivity.
Qed.

Lemma insensitive_ignores_address_case_witness :
  Py.mem "x" "ab000000000000000000000000000000000000ef" = false /\
  Py.mem "x" "AB000000000000000000000000000000000000EF" = false /\
  Py.lower "ab000000000000000000000000000000000000ef" =
    Py.lower "AB000000000000000000000000000000000000EF" /\
  starts_with_pattern false "ab" (Some 2)
      ("0x" ++ "ab000000000000000000000000000000000000ef")%string =
    starts_with_pattern false "ab" (Some 2)
      ("0x" ++ "AB000000000000000000000000000000000000EF")%string /\
  ends_with_pattern false "ab" (Some 2)
      ("0x" ++ "ab000000000000000000000000000000000000ef")%string =
    ends_with_pattern false "ab" (Some 2)
      ("0x" ++ "AB000000000000000000000000000000000000EF")%string.
Proof.
  split; [reflexivity|]. split; [reflexivity|].
  split; [vm_compute; reflexivity|].
  apply (insensitive_ignores_address_case "ab"%string (Some 2)
           "ab000000000000000000000000000000000000ef"%string
           "AB000000000000000000000000000000000000EF"%string).
  - reflexivity.
  - reflexivity.
  - vm_compute; reflexivity.
Defined.
